(** * asciimatics.parsers: the three text parsers, embedded and verified

    The development follows [src/asciimatics/parsers.py]:
    - Python values: strings as lists of Latin-1 characters, integers as [Z],
      [None] as [option], exceptions as a result type;
    - the builtins the parsers rely on ([int], [str.split], [str.format],
      list slicing and slice assignment);
    - [ControlCodeParser], [AsciimaticsParser] and [AnsiTerminalParser];
    - the properties of the specification, one theorem each. *)

From Stdlib Require Import Ascii String DecimalString DecimalPos.
From Stdlib Require Import ZArith List Bool Lia.
Import ListNotations.
Local Open Scope char_scope.
Local Open Scope Z_scope.

(** ** Python values *)

(** A Python string is a list of characters.  Characters are the 256 code
    points of Latin-1, which is what [ascii] holds. *)
Definition str : Type := list ascii.

Definition lit (s : string) : str := list_ascii_of_string s.

Definition ord (c : ascii) : Z := Z.of_N (N_of_ascii c).
Definition chr (z : Z) : ascii := ascii_of_N (Z.to_N z).

Definition ESC : ascii := "027".
Definition BS : ascii := "008".
Definition CR : ascii := "013".

Definition len {A : Type} (l : list A) : Z := Z.of_nat (length l).

(** Exceptions the parsers can run into. *)
Inductive exn : Type := ValueError | KeyError.

(** Result of running a piece of Python: a value, a raised exception, or
    the iteration bound of a loop reached ([OutOfFuel]). *)
Inductive outcome (A : Type) : Type :=
| Ok (a : A)
| Raise (e : exn)
| OutOfFuel.
Arguments Ok {A} a.
Arguments Raise {A} e.
Arguments OutOfFuel {A}.

Definition bind {A B : Type} (m : outcome A) (k : A -> outcome B) : outcome B :=
  match m with
  | Ok a => k a
  | Raise e => Raise e
  | OutOfFuel => OutOfFuel
  end.

Notation "x <- m ;; k" := (bind m (fun x => k))
  (at level 61, m at next level, right associativity).

(** [while fuel cond body s]: the loop [while cond(s): s = body(s)], run for at
    most [fuel] iterations. *)
Fixpoint while {St : Type} (fuel : nat) (cond : St -> bool)
  (body : St -> outcome St) (s : St) : outcome St :=
  if cond s then
    match fuel with
    | O => OutOfFuel
    | S fuel' => s' <- body s ;; while fuel' cond body s'
    end
  else Ok s.

(** ** List slicing *)

(** Index normalisation of a slice bound against a list of length [n]:
    negative bounds count from the end, and everything is clamped to
    [0..n]. *)
Definition adjust_index (n i : Z) : Z :=
  if i <? 0 then Z.max (i + n) 0 else Z.min i n.

(** [l[:stop]] *)
Definition slice_to {A : Type} (l : list A) (stop : Z) : list A :=
  firstn (Z.to_nat (adjust_index (len l) stop)) l.

(** [l[start:]] *)
Definition slice_from {A : Type} (l : list A) (start : Z) : list A :=
  skipn (Z.to_nat (adjust_index (len l) start)) l.

(** [l[start:stop] = v]: both bounds are normalised, an upper bound below
    the lower one is raised to it, and the range is replaced by [v]. *)
Definition slice_assign {A : Type} (l : list A) (start stop : Z) (v : list A) : list A :=
  let lo := adjust_index (len l) start in
  let hi := Z.max (adjust_index (len l) stop) lo in
  firstn (Z.to_nat lo) l ++ v ++ skipn (Z.to_nat hi) l.

(** ** Builtins on strings *)

(** The white space [int] skips around a literal: the ASCII white space
    and, beyond ASCII, the Latin-1 characters NEL and NBSP. *)
Definition is_space (c : ascii) : bool :=
  let n := ord c in
  ((9 <=? n) && (n <=? 13)) || (n =? 32) || (n =? 133) || (n =? 160).

Definition digit_value (c : ascii) : option Z :=
  let n := ord c in
  if (48 <=? n) && (n <=? 57) then Some (n - 48) else None.

Fixpoint lstrip (t : str) : str :=
  match t with
  | c :: t' => if is_space c then lstrip t' else t
  | [] => []
  end.

Definition strip (t : str) : str := rev (lstrip (rev (lstrip t))).

(** Digits of a decimal literal after the first one; a single underscore is
    allowed between two digits. *)
Fixpoint int_digits (acc : Z) (after_underscore : bool) (t : str) : option Z :=
  match t with
  | [] => if after_underscore then None else Some acc
  | c :: t' =>
      if Ascii.eqb c "_" then
        if after_underscore then None else int_digits acc true t'
      else
        match digit_value c with
        | Some d => int_digits (10 * acc + d) false t'
        | None => None
        end
  end.

Definition int_unsigned (t : str) : option Z :=
  match t with
  | c :: _ =>
      match digit_value c with
      | Some _ => int_digits 0 false t
      | None => None
      end
  | [] => None
  end.

(** [int(t)] in base ten; [None] stands for [ValueError].  Integers are
    unbounded, and no limit is put on the number of digits. *)
Definition py_int (t : str) : option Z :=
  match strip t with
  | c :: r =>
      if Ascii.eqb c "-" then option_map Z.opp (int_unsigned r)
      else if Ascii.eqb c "+" then int_unsigned r
      else int_unsigned (c :: r)
  | [] => None
  end.

Definition int_or_raise (t : str) : outcome Z :=
  match py_int t with
  | Some z => Ok z
  | None => Raise ValueError
  end.

(** [t.split(sep)] for a one-character separator. *)
Fixpoint split (sep : ascii) (t : str) : list str :=
  match t with
  | [] => [[]]
  | c :: t' =>
      if Ascii.eqb c sep then [] :: split sep t'
      else
        match split sep t' with
        | h :: r => (c :: h) :: r
        | [] => [[c]]
        end
  end.

(** [sep.join(l)] *)
Fixpoint join (sep : str) (l : list str) : str :=
  match l with
  | [] => []
  | [x] => x
  | x :: r => x ++ sep ++ join sep r
  end.

(** ["{}".format(x)] for an integer or [None]. *)
Definition format_int (z : Z) : str :=
  list_ascii_of_string (NilZero.string_of_int (Z.to_int z)).

Definition format_value (x : option Z) : str :=
  match x with
  | Some z => format_int z
  | None => lit "None"
  end.

(** ** Colours and records *)

(** A colour tuple [(foreground, style, background)]; [None] is unset. *)
Definition colour_tuple : Type := option Z * option Z * option Z.

Definition unset : colour_tuple := (None, None, None).

Definition get_index (a : colour_tuple) (i : nat) : option Z :=
  match a, i with
  | (fg, _, _), O => fg
  | (_, st, _), S O => st
  | (_, _, bg), _ => bg
  end.

(** [a[i] = v] on the three-element attribute list. *)
Definition set_index (a : colour_tuple) (i : nat) (v : option Z) : colour_tuple :=
  match a, i with
  | (_, st, bg), O => (v, st, bg)
  | (fg, _, bg), S O => (fg, v, bg)
  | (fg, st, _), _ => (fg, st, v)
  end.

Definition option_Z_eqb (x y : option Z) : bool :=
  match x, y with
  | Some a, Some b => a =? b
  | None, None => true
  | _, _ => false
  end.

Definition colour_tuple_eqb (a b : colour_tuple) : bool :=
  option_Z_eqb (get_index a 0) (get_index b 0)
  && option_Z_eqb (get_index a 1) (get_index b 1)
  && option_Z_eqb (get_index a 2) (get_index b 2).

(** One entry of the parse result: [[glyph, colours, offset]]. *)
Definition element : Type := option str * colour_tuple * Z.

Definition glyph (e : element) : option str := fst (fst e).
Definition colours_of (e : element) : colour_tuple := snd (fst e).
Definition offset_of (e : element) : Z := snd e.

(** The attributes of [Parser]; [E] is the type of the result entries. *)
Record Parser (E : Type) : Type := mkParser {
  _raw_text : str;
  _attributes : option colour_tuple;
  _cursor : Z;
  _result : list E
}.
Arguments mkParser {E}.
Arguments _raw_text {E}.
Arguments _attributes {E}.
Arguments _cursor {E}.
Arguments _result {E}.

(** [Parser.cursor] *)
Definition cursor_property {E : Type} (p : Parser E) : Z := _cursor p.

(** [Parser.parse]: the stored entries, in order. *)
Definition parse {E : Type} (p : Parser E) : list E := _result p.

(** The values of [asciimatics.constants] the parsers read.  The module is
    not part of the sources at hand, so its values are parameters. *)
Class Constants : Type := {
  COLOUR_BLACK : Z;
  COLOUR_WHITE : Z;
  A_BOLD : Z;
  A_NORMAL : Z;
  A_REVERSE : Z;
  (** the dictionary [MAPPING_ATTRIBUTES]; [None] when the key is absent *)
  MAPPING_ATTRIBUTES : str -> option Z
}.

(** ** ControlCodeParser *)

Module ControlCodeParser.

(** What [reset] attaches to every entry: the one iterator over the colour
    tuple (with the items it has still to yield), or the tuple
    [(None, None, None)]. *)
Inductive placeholder : Type :=
| tuple_iterator (remaining : list (option Z))
| plain_tuple (t : colour_tuple).

Definition entry : Type := str * placeholder * Z.

(** [enumerate(t)] counted from [i]. *)
Fixpoint enumerate_from {A : Type} (i : Z) (l : list A) : list (Z * A) :=
  match l with
  | [] => []
  | x :: r => (i, x) :: enumerate_from (i + 1) r
  end.

Definition readable (attributes : placeholder) (item : Z * ascii) : entry :=
  let (i, letter) := item in
  if ord letter <? 32
  then ("^" :: [chr (ord "@" + ord letter)], attributes, i)
  else ([letter], attributes, i).

(** [ControlCodeParser.reset(text, colours)] *)
Definition reset (raw : str) (colours : option colour_tuple) : outcome (Parser entry) :=
  let attributes :=
    match colours with
    | Some (fg, st, bg) => tuple_iterator [fg; st; bg]
    | None => plain_tuple unset
    end in
  Ok (mkParser raw colours 0 (map (readable attributes) (enumerate_from 0 raw))).

(** [ControlCodeParser.normalize()] *)
Definition normalize (p : Parser entry) : str := _raw_text p.

End ControlCodeParser.

(** ** AsciimaticsParser *)

Module AsciimaticsParser.

(** The alternatives of a colour sequence, with the groups each one fills. *)
Inductive token : Type :=
| token_cab (g2 g3 g4 : str)     (* groups 2, 3 and 4 *)
| token_ca (g5 g6 : str)         (* groups 5 and 6 *)
| token_c (g7 : str).            (* group 7 *)

Record colour_match : Type := mkMatch {
  group1 : str;      (* what stands between the braces *)
  groups : token;
  group8 : str       (* the text after the sequence *)
}.

Definition is_digit (c : ascii) : bool :=
  match digit_value c with Some _ => true | None => false end.

Definition is_name_char (c : ascii) : bool :=
  negb (Ascii.eqb c ",") && negb (Ascii.eqb c "}").

(** The longest prefix of [t] made of characters in [p], and what follows. *)
Fixpoint span (p : ascii -> bool) (t : str) : str * str :=
  match t with
  | c :: t' =>
      if p c then let (a, b) := span p t' in (c :: a, b) else ([], t)
  | [] => ([], [])
  end.

Definition nonempty_run (r : str) : bool :=
  match r with [] => false | _ => true end.

(** Modelled from the spec: [constants.COLOUR_REGEX], which is not among the
    sources.  The spec gives the grammar of a markup token at the head of the
    text: a dollar sign and braces around [c], [c,a] or [c,a,b], matched
    greedily, with [c] and [b] integers and [a] a name, and the token is what
    a match consumes.  Here an integer is a non-empty run of decimal digits
    and a name a non-empty run of characters other than the comma and the
    closing brace. *)
Definition _colour_sequence_match (t : str) : option colour_match :=
  match t with
  | c0 :: c1 :: t1 =>
      if Ascii.eqb c0 "$" && Ascii.eqb c1 "{" then
        let (c, t2) := span is_digit t1 in
        match t2 with
        | d :: t3 =>
            if negb (nonempty_run c) then None
            else if Ascii.eqb d "}" then Some (mkMatch c (token_c c) t3)
            else if Ascii.eqb d "," then
              let (a, t4) := span is_name_char t3 in
              match t4 with
              | d' :: t5 =>
                  if negb (nonempty_run a) then None
                  else if Ascii.eqb d' "}" then
                    Some (mkMatch (c ++ "," :: a) (token_ca c a) t5)
                  else if Ascii.eqb d' "," then
                    let (b, t6) := span is_digit t5 in
                    match t6 with
                    | d'' :: t7 =>
                        if negb (nonempty_run b) then None
                        else if Ascii.eqb d'' "}" then
                          Some (mkMatch (c ++ "," :: a ++ "," :: b)
                                  (token_cab c a b) t7)
                        else None
                    | [] => None
                    end
                  else None
              | [] => None
              end
            else None
        | [] => None
        end
      else None
  | _ => None
  end.

(** The local variables of [reset]. *)
Record state : Type := mkState {
  result : list element;
  attributes : colour_tuple;
  offset : Z;
  last_offset : Z;
  text : str
}.

Section WithConstants.
Context {K : Constants}.

(** [constants.MAPPING_ATTRIBUTES[k]] *)
Definition lookup_attribute (k : str) : outcome Z :=
  match MAPPING_ATTRIBUTES k with
  | Some v => Ok v
  | None => Raise KeyError
  end.

(** The colour tuple a matched sequence stands for. *)
Definition token_attributes (m : colour_match) : outcome colour_tuple :=
  match groups m with
  | token_cab g2 g3 g4 =>
      c <- int_or_raise g2 ;;
      a <- lookup_attribute g3 ;;
      b <- int_or_raise g4 ;;
      Ok (Some c, Some a, Some b)
  | token_ca g5 g6 =>
      c <- int_or_raise g5 ;;
      a <- lookup_attribute g6 ;;
      Ok (Some c, Some a, None)
  | token_c g7 =>
      c <- int_or_raise g7 ;;
      Ok (Some c, Some 0, None)
  end.

(** The body of [while len(text) > 0], run with a non-empty text. *)
Definition body (st : state) : outcome state :=
  match _colour_sequence_match (text st) with
  | None =>
      match text st with
      | [] => Ok st
      | c :: _ =>
          Ok (mkState
                (result st ++ [(Some [c], attributes st, last_offset st)])
                (attributes st)
                (offset st + 1)
                (offset st + 1)
                (slice_from (text st) 1))
      end
  | Some m =>
      a <- token_attributes m ;;
      Ok (mkState (result st) a (offset st + (3 + len (group1 m)))
            (last_offset st) (group8 m))
  end.

Definition nonempty (st : state) : bool := len (text st) >? 0.

Definition initial_state (raw : str) (colours : option colour_tuple) : state :=
  mkState [] (match colours with Some c => c | None => unset end) 0 0 raw.

(** The [while] loop of [reset], to its end. *)
Definition run (raw : str) (colours : option colour_tuple) : outcome state :=
  while (length raw) nonempty body (initial_state raw colours).

(** What [reset] stores once the loop has ended in [st]. *)
Definition finish (raw : str) (colours : option colour_tuple) (st : state)
  : Parser element :=
  mkParser raw colours
    (len (result st))
    (if last_offset st =? offset st then result st
     else result st ++ [(None, attributes st, last_offset st)]).

(** [AsciimaticsParser.reset(text, colours)] *)
Definition reset (raw : str) (colours : option colour_tuple)
  : outcome (Parser element) :=
  st <- run raw colours ;; Ok (finish raw colours st).

(** [AsciimaticsParser.normalize()] *)
Definition normalize (p : Parser element) : str := _raw_text p.

End WithConstants.
End AsciimaticsParser.

(** ** AnsiTerminalParser *)

Module AnsiTerminalParser.

(** The groups of a successful match of [_colour_sequence] that the parser
    reads.  The pattern is ESC, an opening square bracket, a parameter field
    (group 2) and a final character (group 3); group 1 spans all of these. *)
Record csi_match : Type := mkMatch {
  group1 : str;     (* the whole control sequence *)
  group2 : str;     (* its parameter field *)
  group3 : ascii    (* its final character *)
}.

(** The class [[@-~]]. *)
Definition is_final (c : ascii) : bool :=
  (ord "@" <=? ord c) && (ord c <=? ord "~").

(** Groups 2 and 3: the longest run of characters outside [[@-~]], then one
    character inside it. *)
Fixpoint scan_parameters (t : str) : option (str * ascii) :=
  match t with
  | [] => None
  | c :: t' =>
      if is_final c then Some ([], c)
      else
        match scan_parameters t' with
        | Some (p, f) => Some (c :: p, f)
        | None => None
        end
  end.

(** [_colour_sequence.match(t)] *)
Definition _colour_sequence_match (t : str) : option csi_match :=
  match t with
  | e :: b :: t' =>
      if Ascii.eqb e ESC && Ascii.eqb b "[" then
        match scan_parameters t' with
        | Some (p, f) => Some (mkMatch (ESC :: "[" :: p ++ [f]) p f)
        | None => None
        end
      else None
  | _ => None
  end.

(** The [state] object of [reset]. *)
Record state : Type := mkState {
  result : list element;
  attributes : colour_tuple;
  offset : Z;
  last_offset : Z;
  cursor : Z;
  text : str
}.

Definition set_result (st : state) (r : list element) : state :=
  mkState r (attributes st) (offset st) (last_offset st) (cursor st) (text st).
Definition set_attributes (st : state) (a : colour_tuple) : state :=
  mkState (result st) a (offset st) (last_offset st) (cursor st) (text st).
Definition set_offset (st : state) (o : Z) : state :=
  mkState (result st) (attributes st) o (last_offset st) (cursor st) (text st).
Definition set_last_offset (st : state) (o : Z) : state :=
  mkState (result st) (attributes st) (offset st) o (cursor st) (text st).
Definition set_cursor (st : state) (c : Z) : state :=
  mkState (result st) (attributes st) (offset st) (last_offset st) c (text st).
Definition set_text (st : state) (t : str) : state :=
  mkState (result st) (attributes st) (offset st) (last_offset st) (cursor st) t.

(** The local variables of the SGR parameter loop. *)
Record sgr_flags : Type := mkFlags {
  in_set_mode : bool;
  in_index_mode : bool;
  in_rgb_mode : bool;
  skip_size : Z;
  attribute_index : nat
}.

Definition sgr_start : sgr_flags := mkFlags false false false 0 0.

Section WithConstants.
Context {K : Constants}.

(** One iteration of [for parameter in match.group(2).split(";")]. *)
Definition sgr_parameter (acc : sgr_flags * colour_tuple) (field : str)
  : sgr_flags * colour_tuple :=
  let (f, attrs) := acc in
  let parameter := match py_int field with Some z => z | None => 0 end in
  if in_set_mode f then
    (* a set fore/background colour code *)
    let f' :=
      if parameter =? 5 then
        mkFlags (in_set_mode f) true (in_rgb_mode f) (skip_size f) (attribute_index f)
      else if parameter =? 2 then
        mkFlags (in_set_mode f) (in_index_mode f) true 3 (attribute_index f)
      else f in
    (mkFlags false (in_index_mode f') (in_rgb_mode f') (skip_size f') (attribute_index f'),
     attrs)
  else if in_index_mode f then
    (* a 5;n sequence for colour indices *)
    (mkFlags (in_set_mode f) false (in_rgb_mode f) (skip_size f) (attribute_index f),
     set_index attrs (attribute_index f) (Some parameter))
  else if in_rgb_mode f then
    (* a 2;r;g;b sequence for RGB colours: ignored *)
    let s := skip_size f - 1 in
    (mkFlags (in_set_mode f) (in_index_mode f)
       (if s <=? 0 then false else in_rgb_mode f) s (attribute_index f),
     attrs)
  else
    (* top-level stream processing *)
    if parameter =? 0 then
      (f, (Some COLOUR_WHITE, Some A_NORMAL, Some COLOUR_BLACK))
    else if parameter =? 1 then
      (f, set_index attrs 1 (Some A_BOLD))
    else if (parameter =? 2) || (parameter =? 22) then
      (f, set_index attrs 1 (Some A_NORMAL))
    else if parameter =? 7 then
      (f, set_index attrs 1 (Some A_REVERSE))
    else if parameter =? 27 then
      (f, set_index attrs 1 (Some A_NORMAL))
    else if (30 <=? parameter) && (parameter <? 38) then
      (f, set_index attrs 0 (Some (parameter - 30)))
    else if (40 <=? parameter) && (parameter <? 48) then
      (f, set_index attrs 2 (Some (parameter - 40)))
    else if parameter =? 38 then
      (mkFlags true (in_index_mode f) (in_rgb_mode f) (skip_size f) 0, attrs)
    else if parameter =? 48 then
      (mkFlags true (in_index_mode f) (in_rgb_mode f) (skip_size f) 2, attrs)
    else
      (f, attrs).

(** The whole SGR branch: the attributes after the parameter stream. *)
Definition sgr (attrs : colour_tuple) (parameters : str) : colour_tuple :=
  snd (fold_left sgr_parameter (split ";" parameters) (sgr_start, attrs)).

(** [param = 1 if match.group(2) == "" else int(match.group(2))] *)
Definition count_parameter (g2 : str) : outcome Z :=
  match g2 with
  | [] => Ok 1
  | _ => int_or_raise g2
  end.

Definition blank (st : state) : element := (Some [" "], attributes st, offset st).

(** [_handle_escape(st)]: the updated state and the number of characters
    to skip. *)
Definition _handle_escape (st : state) : outcome (state * Z) :=
  match _colour_sequence_match (text st) with
  | None =>
      (* Escape - ignore next char *)
      Ok (st, 2)
  | Some m =>
      st' <-
        (if Ascii.eqb (group3 m) "m" then
           Ok (set_attributes st (sgr (attributes st) (group2 m)))
         else if Ascii.eqb (group3 m) "K" then
           let param := group2 m in
           if list_eq_dec ascii_dec param [] then
             Ok (set_result st (slice_to (result st) (cursor st)))
           else if list_eq_dec ascii_dec param ["0"] then
             Ok (set_result st (slice_to (result st) (cursor st)))
           else if list_eq_dec ascii_dec param ["1"] then
             Ok (set_result st
                   (repeat (blank st) (Z.to_nat (cursor st))
                    ++ slice_from (result st) (cursor st)))
           else if list_eq_dec ascii_dec param ["2"] then
             Ok (set_result st (repeat (blank st) (Z.to_nat (cursor st))))
           else Ok st
         else if Ascii.eqb (group3 m) "P" then
           param <- count_parameter (group2 m) ;;
           Ok (set_result st
                 (slice_to (result st) (cursor st)
                  ++ slice_from (result st) (cursor st + param)))
         else if Ascii.eqb (group3 m) "C" then
           param <- count_parameter (group2 m) ;;
           Ok (set_cursor st (cursor st + param))
         else if Ascii.eqb (group3 m) "D" then
           param <- count_parameter (group2 m) ;;
           Ok (set_cursor st (cursor st - param))
         else Ok st) ;;
      Ok (st', len (group1 m))
  end.

(** The body of [while len(state.text) > 0], run with a non-empty text. *)
Definition body (st : state) : outcome state :=
  match text st with
  | [] => Ok st
  | c :: _ =>
      let char := ord c in
      r <-
        (if char >? 31 then
           let st1 :=
             set_result st
               (slice_assign (result st) (cursor st) (cursor st + 1)
                  [(Some [c], attributes st, last_offset st)]) in
           let st2 := set_cursor st1 (cursor st1 + 1) in
           Ok (set_last_offset st2 (offset st2 + 1), 1)
         else if char =? 8 then
           (* Back space *)
           Ok (set_cursor st (Z.max (cursor st - 1) 0), 1)
         else if char =? 13 then
           (* Carriage return *)
           Ok (set_cursor st 0, 1)
         else if char =? 27 then
           _handle_escape st
         else Ok (st, 1)) ;;
      let (st', new_offset) := r : state * Z in
      let st'' := set_offset st' (offset st' + new_offset) in
      Ok (set_text st'' (slice_from (text st'') new_offset))
  end.

Definition nonempty (st : state) : bool := len (text st) >? 0.

(** The state [reset] starts from. *)
Definition initial_state (raw : str) (colours : option colour_tuple) : state :=
  mkState []
    (match colours with Some c => c | None => unset end)
    0 0 0 raw.

(** The [while] loop of [reset], to its end. *)
Definition run (raw : str) (colours : option colour_tuple) : outcome state :=
  while (length raw) nonempty body (initial_state raw colours).

(** What [reset] stores once the loop has ended in [st]. *)
Definition finish (raw : str) (colours : option colour_tuple) (st : state)
  : Parser element :=
  mkParser raw colours
    (len (result st) - cursor st)
    (if last_offset st =? offset st then result st
     else result st ++ [(None, attributes st, last_offset st)]).

(** [AnsiTerminalParser.reset(text, colours)] *)
Definition reset (raw : str) (colours : option colour_tuple)
  : outcome (Parser element) :=
  st <- run raw colours ;; Ok (finish raw colours st).

(** One iteration of the loop of [normalize]; the accumulator holds
    [new_value], [attributes], [last_offset] and the entries rewritten so
    far. *)
Definition normalize_element (acc : str * colour_tuple * Z * list element)
  (e : element) : str * colour_tuple * Z * list element :=
  let '(new_value, attrs, last, done) := acc in
  let a := colours_of e in
  let '(new_value1, attrs1) :=
    if negb (colour_tuple_eqb attrs a) then
      let format :=
        (if negb (option_Z_eqb (get_index attrs 0) (get_index a 0))
         then [lit "38;5;" ++ format_value (get_index a 0)] else [])
        ++ (if negb (option_Z_eqb (get_index attrs 1) (get_index a 1))
            then
              if option_Z_eqb (get_index a 1) (Some A_BOLD) then [lit "1"]
              else if option_Z_eqb (get_index a 1) (Some A_NORMAL) then [lit "2"]
              else if option_Z_eqb (get_index a 1) (Some A_REVERSE) then [lit "7"]
              else []
            else [])
        ++ (if negb (option_Z_eqb (get_index attrs 2) (get_index a 2))
            then [lit "48;5;" ++ format_value (get_index a 2)] else []) in
      (new_value ++ ESC :: "[" :: join [";"] format ++ ["m"], a)
    else (new_value, attrs) in
  let new_value2 :=
    match glyph e with
    | Some g => new_value1 ++ g
    | None => new_value1
    end in
  (new_value2, attrs1, len new_value2, done ++ [(glyph e, a, last)]).

(** [AnsiTerminalParser.normalize()]: the returned string and the parser
    with its rewritten offsets and raw text. *)
Definition normalize (p : Parser element) : str * Parser element :=
  let '(new_value, _, _, entries) :=
    fold_left normalize_element (_result p) ([], unset, 0, []) in
  let new_value' :=
    if _cursor p >? 0
    then new_value ++ ESC :: "[" :: format_int (_cursor p) ++ ["D"]
    else new_value in
  (new_value', mkParser new_value' (_attributes p) (_cursor p) entries).

End WithConstants.
End AnsiTerminalParser.

(** ** Vocabulary of the properties *)

(** Sample values for the constants, used where a closed term is needed. *)
Definition sample_constants : Constants :=
  {| COLOUR_BLACK := 0; COLOUR_WHITE := 7; A_BOLD := 1; A_NORMAL := 2;
     A_REVERSE := 3;
     MAPPING_ATTRIBUTES := fun k =>
       if list_eq_dec ascii_dec k ["1"] then Some 1
       else if list_eq_dec ascii_dec k ["2"] then Some 2
       else if list_eq_dec ascii_dec k ["3"] then Some 3
       else None |}.

(** A state of the terminal parser in mid-line, about to read [t]. *)
Definition sample_state (t : str) : AnsiTerminalParser.state :=
  AnsiTerminalParser.mkState
    [(Some ["a"], (Some 4, Some 1, Some 6), 0); (Some ["b"], unset, 1)]
    (Some 4, Some 1, Some 6) 2 2 2 t.

(** The pair sequence of a parse result: entries without their offsets. *)
Definition pairs (l : list element) : list (option str * colour_tuple) :=
  map (fun e => (glyph e, colours_of e)) l.

(** The characters of a matched colour sequence. *)
Definition token_text (m : AsciimaticsParser.colour_match) : str :=
  "$"%char :: "{"%char :: AsciimaticsParser.group1 m ++ ["}"%char].

(** A run of markup: colour sequences one after another. *)
Inductive markup_run : str -> Prop :=
| markup_nil : markup_run []
| markup_snoc (seg t : str) (m : AsciimaticsParser.colour_match) :
    markup_run seg -> AsciimaticsParser._colour_sequence_match t = Some m ->
    markup_run (seg ++ token_text m).

(** The offset of the entry that follows, or [next] after the last one. *)
Definition next_offset (after : list element) (next : Z) : Z :=
  match after with
  | e :: _ => offset_of e
  | [] => next
  end.

(** Every character entry sits in the raw text behind a run of markup; its
    offset is where that run starts, and the offset that follows is the
    position just past the character. *)
Definition laid_out (raw : str) (res : list element) (next : Z) : Prop :=
  forall before after c a o,
    res = before ++ (Some [c], a, o) :: after ->
    exists pre seg post,
      raw = pre ++ seg ++ c :: post
      /\ len pre = o
      /\ markup_run seg
      /\ next_offset after next = o + len seg + 1.

(** What the loop of [AsciimaticsParser.reset] maintains: the raw text is
    what was consumed up to the last literal character, then the markup
    consumed since, then the text still to read. *)
Definition markup_invariant (raw : str) (st : AsciimaticsParser.state) : Prop :=
  exists pre seg,
    raw = pre ++ seg ++ AsciimaticsParser.text st
    /\ len pre = AsciimaticsParser.last_offset st
    /\ AsciimaticsParser.offset st = len pre + len seg
    /\ markup_run seg
    /\ laid_out raw (AsciimaticsParser.result st) (AsciimaticsParser.last_offset st)
    /\ (forall e after, AsciimaticsParser.result st = e :: after -> offset_of e = 0)
    /\ (AsciimaticsParser.result st = [] -> AsciimaticsParser.last_offset st = 0).

(** A run of decimal digits, and a non-empty one. *)
Definition all_digits (t : str) : bool :=
  forallb (fun c => match digit_value c with Some _ => true | None => false end) t.

Definition numeric (t : str) : Prop := t <> [] /\ all_digits t = true.

(** The entries of a run of plain characters stored from offset [i] on. *)
Fixpoint plain_entries (a : colour_tuple) (i : Z) (t : str) : list element :=
  match t with
  | [] => []
  | c :: t' => (Some [c], a, i) :: plain_entries a (i + 1) t'
  end.

Definition printable (t : str) : Prop := Forall (fun c => 31 < ord c) t.

(** A control sequence with parameter field [p] and final character [f]. *)
Definition csi (p : str) (f : ascii) : str := ESC :: "["%char :: p ++ [f].

(** A parameter field holds no character of the final class. *)
Definition parameter_field (p : str) : Prop :=
  forallb (fun c => negb (AnsiTerminalParser.is_final c)) p = true.

(** The characters of an unsigned decimal numeral. *)
Definition uint_chars (d : Decimal.uint) : str :=
  list_ascii_of_string (NilEmpty.string_of_uint d).

(** A text with no white space, and one with no occurrence of [sep]. *)
Definition no_space (t : str) : bool := forallb (fun c => negb (is_space c)) t.

Definition free_of (sep : ascii) (t : str) : bool :=
  forallb (fun c => negb (Ascii.eqb c sep)) t.

(** A text made of digits and minus signs, as [format_int] produces. *)
Definition number_chars (t : str) : bool :=
  forallb (fun c => match digit_value c with
                    | Some _ => true
                    | None => Ascii.eqb c "-"
                    end) t.

(** The three mode flags of the SGR parameter loop are down. *)
Definition idle (f : AnsiTerminalParser.sgr_flags) : Prop :=
  AnsiTerminalParser.in_set_mode f = false
  /\ AnsiTerminalParser.in_index_mode f = false
  /\ AnsiTerminalParser.in_rgb_mode f = false.

(** Flags under which the parameter loop goes on in the same way: the same
    modes, the same component to write while one is being selected, the
    same count while colours are being skipped. *)
Definition alike (f g : AnsiTerminalParser.sgr_flags) : Prop :=
  AnsiTerminalParser.in_set_mode f = AnsiTerminalParser.in_set_mode g
  /\ AnsiTerminalParser.in_index_mode f = AnsiTerminalParser.in_index_mode g
  /\ AnsiTerminalParser.in_rgb_mode f = AnsiTerminalParser.in_rgb_mode g
  /\ (idle f \/
      AnsiTerminalParser.attribute_index f = AnsiTerminalParser.attribute_index g)
  /\ (AnsiTerminalParser.in_rgb_mode f = false \/
      AnsiTerminalParser.skip_size f = AnsiTerminalParser.skip_size g).

(** An entry with a glyph, and the pairs of the entries that have one. *)
Definition has_glyph (e : element) : bool :=
  match glyph e with Some _ => true | None => false end.

Definition glyph_pairs (l : list element) : list (option str * colour_tuple) :=
  pairs (filter has_glyph l).

(** A cell as the terminal parser stores it: one printable character, or
    no glyph at all. *)
Definition cell (e : element) : Prop :=
  glyph e = None \/ exists c, glyph e = Some [c] /\ 31 < ord c.

Section NormalizeVocabulary.
Context {K : Constants}.

(** The styles [normalize] has a code for. *)
Definition style_code (v : Z) : Prop := v = A_BOLD \/ v = A_NORMAL \/ v = A_REVERSE.

(** The list [format] that [normalize] builds when the colours change from
    [attrs] to [a]. *)
Definition sgr_format (attrs a : colour_tuple) : list str :=
  (if negb (option_Z_eqb (get_index attrs 0) (get_index a 0))
   then [lit "38;5;" ++ format_value (get_index a 0)] else [])
  ++ (if negb (option_Z_eqb (get_index attrs 1) (get_index a 1))
      then
        if option_Z_eqb (get_index a 1) (Some A_BOLD) then [lit "1"]
        else if option_Z_eqb (get_index a 1) (Some A_NORMAL) then [lit "2"]
        else if option_Z_eqb (get_index a 1) (Some A_REVERSE) then [lit "7"]
        else []
      else [])
  ++ (if negb (option_Z_eqb (get_index attrs 2) (get_index a 2))
      then [lit "48;5;" ++ format_value (get_index a 2)] else []).

(** What [normalize] writes for one entry when the colours before it are
    [attrs], and for a list of entries. *)
Definition chunk (attrs : colour_tuple) (e : element) : str :=
  (if negb (colour_tuple_eqb attrs (colours_of e))
   then ESC :: "["%char :: join [";"%char] (sgr_format attrs (colours_of e)) ++ ["m"%char]
   else [])
  ++ match glyph e with Some g => g | None => [] end.

Fixpoint chunks (attrs : colour_tuple) (l : list element) : str :=
  match l with
  | [] => []
  | e :: r => chunk attrs e ++ chunks (colours_of e) r
  end.

(** A change of colours [normalize] can write down: each component stays,
    or becomes a number, which for the style is one of the three codes. *)
Definition encodable (attrs a : colour_tuple) : Prop :=
  (get_index a 0 = get_index attrs 0 \/ exists v, get_index a 0 = Some v)
  /\ (get_index a 1 = get_index attrs 1
      \/ exists v, get_index a 1 = Some v /\ style_code v)
  /\ (get_index a 2 = get_index attrs 2 \/ exists v, get_index a 2 = Some v).

Fixpoint encodable_chain (attrs : colour_tuple) (l : list element) : Prop :=
  match l with
  | [] => True
  | e :: r => encodable attrs (colours_of e) /\ encodable_chain (colours_of e) r
  end.

(** Colours with all three components set, the style to one of the codes. *)
Definition full (a : colour_tuple) : Prop :=
  exists f s b, a = (Some f, Some s, Some b) /\ style_code s.

(** The loop of [reset] continued from the state [st]. *)
Definition run_from (st : AnsiTerminalParser.state) : outcome AnsiTerminalParser.state :=
  while (length (AnsiTerminalParser.text st)) AnsiTerminalParser.nonempty
    AnsiTerminalParser.body st.

End NormalizeVocabulary.

(** An entry that shows one printable character. *)
Definition visible (e : element) : Prop :=
  exists c, glyph e = Some [c] /\ 31 < ord c.

(** * Properties *)

(** ** Slices *)

Lemma len_nonneg {A : Type} (l : list A) : 0 <= len l.
Proof. unfold len. lia. Qed.

Lemma len_app {A : Type} (l1 l2 : list A) : len (l1 ++ l2) = len l1 + len l2.
Proof. unfold len. rewrite length_app. lia. Qed.

Lemma len_cons {A : Type} (x : A) (l : list A) : len (x :: l) = len l + 1.
Proof. unfold len. simpl length. lia. Qed.

Lemma adjust_index_range (n i : Z) : 0 <= n -> 0 <= adjust_index n i <= n.
Proof.
  intros Hn. unfold adjust_index.
  destruct (Z.ltb_spec i 0); lia.
Qed.

(** A slice from a non-negative bound drops that many items. *)
Lemma slice_from_nonneg {A : Type} (l : list A) (n : Z) :
  0 <= n -> slice_from l n = skipn (Z.to_nat n) l.
Proof.
  intros Hn. unfold slice_from, adjust_index.
  destruct (Z.ltb_spec n 0); [lia|].
  destruct (Z.min_spec n (len l)) as [[Hlt ->]|[Hge ->]]; [reflexivity|].
  unfold len in *. rewrite Nat2Z.id.
  rewrite skipn_all. symmetry. apply skipn_all2. lia.
Qed.

Lemma slice_to_in_range {A : Type} (l : list A) (k : Z) :
  0 <= k <= len l -> slice_to l k = firstn (Z.to_nat k) l /\ len (slice_to l k) = k.
Proof.
  intros Hk. unfold slice_to, adjust_index.
  destruct (Z.ltb_spec k 0); [lia|].
  rewrite Z.min_l by lia. split; [reflexivity|].
  unfold len in *. rewrite length_firstn. lia.
Qed.

Lemma slice_to_past_end {A : Type} (l : list A) (k : Z) :
  len l <= k -> slice_to l k = l.
Proof.
  intros Hk. pose proof (len_nonneg l). unfold slice_to, adjust_index.
  destruct (Z.ltb_spec k 0); [lia|].
  rewrite Z.min_r by lia. unfold len. rewrite Nat2Z.id. apply firstn_all.
Qed.

Lemma slice_to_negative {A : Type} (l : list A) (k : Z) :
  k < 0 -> slice_to l k = firstn (Z.to_nat (len l + k)) l.
Proof.
  intros Hk. unfold slice_to, adjust_index.
  destruct (Z.ltb_spec k 0); [|lia].
  f_equal. lia.
Qed.

(** Assigning one item to a one-item slice that starts at or past the end
    appends it. *)
Lemma slice_assign_past_end {A : Type} (l : list A) (c : Z) (v : list A) :
  len l <= c -> slice_assign l c (c + 1) v = l ++ v.
Proof.
  intros Hc. pose proof (len_nonneg l). unfold slice_assign, adjust_index.
  destruct (Z.ltb_spec c 0); [lia|].
  destruct (Z.ltb_spec (c + 1) 0); [lia|].
  rewrite !Z.min_r by lia. rewrite Z.max_id.
  unfold len. rewrite Nat2Z.id, firstn_all, skipn_all, app_nil_r. reflexivity.
Qed.

(** ** The loop combinator *)

(** A loop whose body shortens a measure, positive while the loop runs,
    needs no more iterations than the measure. *)
Lemma while_terminates {St : Type} (cond : St -> bool) (body : St -> outcome St)
  (measure : St -> nat) :
  (forall s, cond s = true -> (0 < measure s)%nat) ->
  (forall s s', cond s = true -> body s = Ok s' -> (measure s' < measure s)%nat) ->
  (forall s, body s <> OutOfFuel) ->
  forall fuel s, (measure s <= fuel)%nat -> while fuel cond body s <> OutOfFuel.
Proof.
  intros Hpos Hdec Hbody fuel.
  induction fuel as [|fuel IH]; intros s Hs; simpl;
    destruct (cond s) eqn:Hc; try discriminate.
  - specialize (Hpos s Hc). lia.
  - destruct (body s) as [s'| |] eqn:Hb; simpl.
    + apply IH. specialize (Hdec s s' Hc Hb). lia.
    + discriminate.
    + exfalso. exact (Hbody s Hb).
Qed.

(** When the loop ends normally its condition is false. *)
Lemma while_exit {St : Type} (cond : St -> bool) (body : St -> outcome St) :
  forall fuel s s', while fuel cond body s = Ok s' -> cond s' = false.
Proof.
  induction fuel as [|fuel IH]; intros s s' H; simpl in H;
    destruct (cond s) eqn:Hc; try discriminate; try (inversion H; subst; exact Hc).
  destruct (body s) as [s1| |]; simpl in H; try discriminate.
  exact (IH _ _ H).
Qed.

(** A property the body maintains holds when the loop ends. *)
Lemma while_invariant {St : Type} (cond : St -> bool) (body : St -> outcome St)
  (I : St -> Prop) :
  (forall s s', cond s = true -> I s -> body s = Ok s' -> I s') ->
  forall fuel s s', I s -> while fuel cond body s = Ok s' -> I s'.
Proof.
  intros Hstep. induction fuel as [|fuel IH]; intros s s' Hs H; simpl in H;
    destruct (cond s) eqn:Hc; try discriminate;
    try (inversion H; subst; exact Hs).
  destruct (body s) as [s1| |] eqn:Hb; simpl in H; try discriminate.
  exact (IH s1 s' (Hstep s s1 Hc Hs Hb) H).
Qed.

(** Splitting a list that ends in [e] around one of its items: the item is
    [e] itself, or it lies in the front part. *)
Lemma snoc_split {A : Type} (l before after : list A) (e x : A) :
  l ++ [e] = before ++ x :: after ->
  (after = [] /\ x = e /\ before = l)
  \/ (exists after0, after = after0 ++ [e] /\ l = before ++ x :: after0).
Proof.
  intros H. destruct (exists_last (l := x :: after)) as (l0 & y & Hl0);
    [discriminate|].
  destruct l0 as [|x0 l0].
  - simpl in Hl0. inversion Hl0; subst. left.
    apply app_inj_tail in H. destruct H. auto.
  - simpl in Hl0. inversion Hl0; subst. right. exists l0.
    change (before ++ x0 :: l0 ++ [y]) with (before ++ (x0 :: l0) ++ [y]) in H.
    rewrite app_assoc in H. apply app_inj_tail in H. destruct H as [-> ->]. auto.
Qed.

(** ** [int] on runs of digits *)

Lemma digit_range (c : ascii) (d : Z) :
  digit_value c = Some d -> 48 <= ord c <= 57.
Proof.
  unfold digit_value.
  destruct (Z.leb_spec 48 (ord c)), (Z.leb_spec (ord c) 57); simpl;
    try discriminate. lia.
Qed.

Lemma digit_not_space (c : ascii) (d : Z) :
  digit_value c = Some d -> is_space c = false.
Proof.
  intros H. apply digit_range in H. unfold is_space.
  repeat match goal with
  | |- context [?a <=? ?b] => destruct (Z.leb_spec a b); try lia
  | |- context [?a =? ?b] => destruct (Z.eqb_spec a b); try lia
  end; reflexivity.
Qed.

Lemma digit_not_char (c x : ascii) (d : Z) :
  digit_value c = Some d -> digit_value x = None -> Ascii.eqb c x = false.
Proof.
  intros Hc Hx. destruct (Ascii.eqb_spec c x) as [->|]; [congruence|reflexivity].
Qed.

Lemma lstrip_digit (c : ascii) (t : str) (d : Z) :
  digit_value c = Some d -> lstrip (c :: t) = c :: t.
Proof. intros H. simpl. rewrite (digit_not_space c d H). reflexivity. Qed.

Lemma all_digits_in (t : str) (c : ascii) :
  all_digits t = true -> In c t -> exists d, digit_value c = Some d.
Proof.
  unfold all_digits. rewrite forallb_forall. intros H Hin.
  specialize (H c Hin). destruct (digit_value c) as [d|]; [|discriminate].
  exists d. reflexivity.
Qed.

Lemma strip_digits (t : str) : all_digits t = true -> strip t = t.
Proof.
  intros H. unfold strip. destruct t as [|c t]; [reflexivity|].
  destruct (all_digits_in _ c H (or_introl eq_refl)) as (d & Hd).
  rewrite (lstrip_digit c t d Hd).
  destruct (rev (c :: t)) as [|x l] eqn:Hrev.
  - apply (f_equal (@length ascii)) in Hrev. rewrite length_rev in Hrev. discriminate.
  - assert (Hx : In x (c :: t)) by (apply in_rev; rewrite Hrev; left; reflexivity).
    destruct (all_digits_in _ x H Hx) as (dx & Hdx).
    rewrite (lstrip_digit x l dx Hdx), <- Hrev. apply rev_involutive.
Qed.

Lemma int_digits_total (t : str) (acc : Z) :
  all_digits t = true -> exists z, int_digits acc false t = Some z.
Proof.
  revert acc. induction t as [|c t IH]; intros acc H; simpl.
  - exists acc. reflexivity.
  - simpl in H. apply andb_prop in H. destruct H as [Hc Ht].
    destruct (digit_value c) as [d|] eqn:Hd; [|discriminate].
    rewrite (digit_not_char c "_" d Hd eq_refl). apply IH, Ht.
Qed.

(** [int] accepts every non-empty run of decimal digits. *)
Lemma py_int_digits (t : str) :
  t <> [] -> all_digits t = true -> exists z, py_int t = Some z.
Proof.
  intros Hne H. unfold py_int. rewrite (strip_digits t H).
  destruct t as [|c t]; [congruence|].
  destruct (all_digits_in _ c H (or_introl eq_refl)) as (d & Hd).
  rewrite (digit_not_char c "-" d Hd eq_refl), (digit_not_char c "+" d Hd eq_refl).
  unfold int_unsigned. rewrite Hd. apply int_digits_total, H.
Qed.

(** ** ControlCodeParser *)

(** [ControlCodeParser.reset] always returns, with one entry per character
    of the text. *)
Lemma control_code_reset_total (raw : str) (colours : option colour_tuple) :
  exists p, ControlCodeParser.reset raw colours = Ok p
            /\ length (_result p) = length raw.
Proof.
  eexists. split; [reflexivity|]. simpl. rewrite length_map.
  generalize 0. induction raw as [|c raw IH]; intros i; simpl; [reflexivity|].
  rewrite IH. reflexivity.
Qed.

(** ** AsciimaticsParser *)

Section AsciimaticsParserProperties.
Import AsciimaticsParser.
Context {K : Constants}.

Lemma span_app (p : ascii -> bool) (t a b : str) :
  span p t = (a, b) -> t = a ++ b.
Proof.
  revert a b. induction t as [|c t IH]; intros a b H; simpl in H.
  - inversion H. reflexivity.
  - destruct (p c).
    + destruct (span p t) as [a' b']. inversion H; subst.
      simpl. rewrite <- (IH a' b eq_refl). reflexivity.
    + inversion H. reflexivity.
Qed.

(** A match consumes the sequence and hands back the text after it. *)
Lemma match_consumes (t : str) (m : colour_match) :
  _colour_sequence_match t = Some m -> t = token_text m ++ group8 m.
Proof.
  unfold _colour_sequence_match, token_text.
  destruct t as [|c0 [|c1 t1]]; try discriminate.
  destruct (Ascii.eqb_spec c0 "$") as [->|]; [|discriminate].
  destruct (Ascii.eqb_spec c1 "{") as [->|]; [|discriminate]. simpl.
  destruct (span is_digit t1) as [c t2] eqn:Hc. apply span_app in Hc. subst t1.
  destruct t2 as [|d t3]; [discriminate|].
  destruct (nonempty_run c); [|discriminate]. simpl.
  destruct (Ascii.eqb_spec d "}") as [->|].
  { intros H. inversion H; subst; clear H. simpl.
    rewrite <- app_assoc. reflexivity. }
  destruct (Ascii.eqb_spec d ",") as [->|]; [|discriminate].
  destruct (span is_name_char t3) as [a t4] eqn:Ha. apply span_app in Ha. subst t3.
  destruct t4 as [|d' t5]; [discriminate|].
  destruct (nonempty_run a); [|discriminate]. simpl.
  destruct (Ascii.eqb_spec d' "}") as [->|].
  { intros H. inversion H; subst; clear H. simpl.
    repeat (rewrite <- app_assoc; simpl). reflexivity. }
  destruct (Ascii.eqb_spec d' ",") as [->|]; [|discriminate].
  destruct (span is_digit t5) as [b t6] eqn:Hb. apply span_app in Hb. subst t5.
  destruct t6 as [|d'' t7]; [discriminate|].
  destruct (nonempty_run b); [|discriminate]. simpl.
  destruct (Ascii.eqb_spec d'' "}") as [->|]; [|discriminate].
  intros H. inversion H; subst; clear H. simpl.
  repeat (rewrite <- app_assoc; simpl). reflexivity.
Qed.

Lemma token_text_len (m : colour_match) : len (token_text m) = 3 + len (group1 m).
Proof.
  unfold token_text. rewrite !len_cons, len_app, len_cons.
  change (len (@nil ascii)) with 0. lia.
Qed.

(** A colour sequence consumes a markup token: the raw offset moves on by
    the length of the token, while the buffer and the offset the next entry
    will carry stay as they are. *)
Lemma body_token (st st' : state) (m : colour_match) :
  _colour_sequence_match (text st) = Some m ->
  body st = Ok st' ->
  result st' = result st
  /\ last_offset st' = last_offset st
  /\ offset st' = offset st + len (token_text m)
  /\ text st = token_text m ++ text st'.
Proof.
  intros Hm. unfold body. rewrite Hm.
  destruct (token_attributes m) as [a| |]; simpl; try discriminate.
  intros H. inversion H; subst; clear H. simpl.
  rewrite token_text_len. repeat split. apply match_consumes, Hm.
Qed.

(** A literal character is stored with the pending offset, and then both
    counters are set to the raw offset just past it. *)
Lemma body_literal (st : state) (c : ascii) (rest : str) :
  text st = c :: rest ->
  _colour_sequence_match (text st) = None ->
  body st =
  Ok (mkState (result st ++ [(Some [c], attributes st, last_offset st)])
        (attributes st) (offset st + 1) (offset st + 1) rest).
Proof.
  intros H Hm. unfold body. rewrite Hm, H.
  rewrite slice_from_nonneg by lia. reflexivity.
Qed.

Lemma asciimatics_body_shortens (st st' : state) :
  nonempty st = true -> body st = Ok st' ->
  (length (text st') < length (text st))%nat.
Proof.
  intros Hne Hb.
  destruct (_colour_sequence_match (text st)) as [m|] eqn:Hm.
  - destruct (body_token _ _ _ Hm Hb) as (_ & _ & _ & ->).
    rewrite length_app. unfold token_text. simpl. lia.
  - unfold nonempty in Hne. destruct (text st) as [|c rest] eqn:Ht; [discriminate|].
    rewrite <- Ht in Hm. rewrite (body_literal st c rest Ht Hm) in Hb.
    inversion Hb; subst. simpl. lia.
Qed.

Lemma asciimatics_body_within_fuel (st : state) : body st <> OutOfFuel.
Proof.
  unfold body, token_attributes, lookup_attribute, int_or_raise.
  repeat match goal with
  | |- context [match ?x with _ => _ end] => destruct x; simpl
  end; discriminate.
Qed.

(** The loop of [reset] ends within its bound: it returns or raises. *)
Lemma asciimatics_run_terminates (raw : str) (colours : option colour_tuple) :
  run raw colours <> OutOfFuel.
Proof.
  unfold run.
  apply (while_terminates nonempty body (fun st => length (text st))).
  - unfold nonempty, len. intros s H. destruct (text s); [discriminate|simpl; lia].
  - apply asciimatics_body_shortens.
  - apply asciimatics_body_within_fuel.
  - simpl. lia.
Qed.

(** *** What [reset] can raise *)

Lemma span_all (p : ascii -> bool) (t a b : str) :
  span p t = (a, b) -> forallb p a = true.
Proof.
  revert a b. induction t as [|c t IH]; intros a b H; simpl in H.
  - inversion H. reflexivity.
  - destruct (p c) eqn:Hc.
    + destruct (span p t) as [a' b']. inversion H; subst.
      simpl. rewrite Hc. exact (IH a' b eq_refl).
    + inversion H. reflexivity.
Qed.

Lemma numeric_run (t a b : str) :
  span is_digit t = (a, b) -> nonempty_run a = true -> numeric a.
Proof.
  intros Hs Hne. split.
  - destruct a; [discriminate|congruence].
  - exact (span_all _ _ _ _ Hs).
Qed.

(** The groups that go through [int] are runs of digits. *)
Lemma match_numeric (t : str) (m : colour_match) :
  _colour_sequence_match t = Some m ->
  match groups m with
  | token_cab g2 _ g4 => numeric g2 /\ numeric g4
  | token_ca g5 _ => numeric g5
  | token_c g7 => numeric g7
  end.
Proof.
  unfold _colour_sequence_match.
  destruct t as [|c0 [|c1 t1]]; try discriminate.
  destruct (Ascii.eqb c0 "$" && Ascii.eqb c1 "{"); [|discriminate].
  destruct (span is_digit t1) as [c t2] eqn:Hc.
  destruct t2 as [|d t3]; [discriminate|].
  destruct (nonempty_run c) eqn:Hnc; [|discriminate]. simpl.
  pose proof (numeric_run _ _ _ Hc Hnc) as Hnum.
  destruct (Ascii.eqb d "}").
  { intros H. inversion H; subst; exact Hnum. }
  destruct (Ascii.eqb d ","); [|discriminate].
  destruct (span is_name_char t3) as [a t4].
  destruct t4 as [|d' t5]; [discriminate|].
  destruct (nonempty_run a); [|discriminate]. simpl.
  destruct (Ascii.eqb d' "}").
  { intros H. inversion H; subst; exact Hnum. }
  destruct (Ascii.eqb d' ","); [|discriminate].
  destruct (span is_digit t5) as [b t6] eqn:Hb.
  destruct t6 as [|d'' t7]; [discriminate|].
  destruct (nonempty_run b) eqn:Hnb; [|discriminate]. simpl.
  destruct (Ascii.eqb d'' "}"); [|discriminate].
  intros H. inversion H; subst. simpl.
  split; [exact Hnum|exact (numeric_run _ _ _ Hb Hnb)].
Qed.

Lemma int_or_raise_numeric (t : str) :
  numeric t -> exists z, int_or_raise t = Ok z.
Proof.
  intros [Hne H]. unfold int_or_raise.
  destruct (py_int_digits t Hne H) as (z & ->). exists z. reflexivity.
Qed.

(** An iteration raises only KeyError, and only for a style name that
    [MAPPING_ATTRIBUTES] does not hold. *)
Lemma asciimatics_body_raises (st : state) (e : exn) :
  body st = Raise e ->
  e = KeyError /\ exists name, MAPPING_ATTRIBUTES name = None.
Proof.
  unfold body.
  destruct (_colour_sequence_match (text st)) as [m|] eqn:Hm.
  - pose proof (match_numeric _ _ Hm) as Hnum.
    unfold token_attributes, lookup_attribute.
    destruct (groups m) as [g2 g3 g4|g5 g6|g7].
    + destruct Hnum as [H2 H4].
      destruct (int_or_raise_numeric g2 H2) as (z2 & ->).
      destruct (int_or_raise_numeric g4 H4) as (z4 & ->). simpl.
      destruct (MAPPING_ATTRIBUTES g3) eqn:Hk; simpl; [discriminate|].
      intros H. inversion H. split; [reflexivity|]. exists g3. exact Hk.
    + destruct (int_or_raise_numeric g5 Hnum) as (z5 & ->). simpl.
      destruct (MAPPING_ATTRIBUTES g6) eqn:Hk; simpl; [discriminate|].
      intros H. inversion H. split; [reflexivity|]. exists g6. exact Hk.
    + destruct (int_or_raise_numeric g7 Hnum) as (z7 & ->). simpl. discriminate.
  - destruct (text st); discriminate.
Qed.

(** [reset] returns whenever [MAPPING_ATTRIBUTES] holds every name. *)
Lemma asciimatics_reset_total (raw : str) (colours : option colour_tuple) :
  (forall name, MAPPING_ATTRIBUTES name <> None) ->
  exists p, reset raw colours = Ok p.
Proof.
  intros Hmap. unfold reset.
  pose proof (asciimatics_run_terminates raw colours) as Hterm.
  destruct (run raw colours) as [st|e|] eqn:Hrun; [|exfalso|congruence].
  - eexists. reflexivity.
  - unfold run in Hrun. revert Hrun. generalize (initial_state raw colours).
    induction (length raw) as [|n IH]; intros s H; simpl in H;
      destruct (nonempty s); try discriminate.
    destruct (body s) as [s'| |] eqn:Hb; simpl in H; try discriminate.
    + exact (IH s' H).
    + destruct (asciimatics_body_raises s e0 Hb) as (_ & name & Hk).
      exact (Hmap name Hk).
Qed.

(** *** Where the offsets of the entries point *)

Lemma invariant_initial (raw : str) (colours : option colour_tuple) :
  markup_invariant raw (initial_state raw colours).
Proof.
  exists [], []. simpl. repeat split; try reflexivity.
  - constructor.
  - intros before after c a o H. destruct before; discriminate.
  - intros e after H. discriminate.
Qed.

Lemma next_offset_snoc (after : list element) (e : element) (next : Z) :
  next_offset (after ++ [e]) next = next_offset after (offset_of e).
Proof. destruct after; reflexivity. Qed.

Lemma laid_out_snoc (raw : str) (res : list element) (e : element) (next : Z) :
  laid_out raw res (offset_of e) ->
  (forall c a o, e = (Some [c], a, o) ->
     exists pre seg post,
       raw = pre ++ seg ++ c :: post /\ len pre = o /\ markup_run seg
       /\ next = o + len seg + 1) ->
  laid_out raw (res ++ [e]) next.
Proof.
  intros Hold Hnew before after c a o H.
  apply snoc_split in H. destruct H as [(-> & He & ->)|(after0 & -> & ->)].
  - destruct (Hnew c a o (eq_sym He)) as (pre & seg & post & H1 & H2 & H3 & H4).
    exists pre, seg, post. auto.
  - destruct (Hold before after0 c a o eq_refl)
      as (pre & seg & post & H1 & H2 & H3 & H4).
    exists pre, seg, post. rewrite next_offset_snoc. auto.
Qed.

Lemma invariant_step (raw : str) (st st' : state) :
  nonempty st = true -> markup_invariant raw st -> body st = Ok st' ->
  markup_invariant raw st'.
Proof.
  intros Hne (pre & seg & Hraw & Hpre & Hoff & Hseg & Hlaid & Hfirst & Hempty) Hb.
  destruct (_colour_sequence_match (text st)) as [m|] eqn:Hm.
  - destruct (body_token _ _ _ Hm Hb) as (Hres & Hlast & Hoff' & Htext).
    exists pre, (seg ++ token_text m).
    rewrite Hres, Hlast, Hoff', Hoff, len_app.
    repeat split; auto; try lia.
    + rewrite Hraw, Htext, <- app_assoc. reflexivity.
    + exact (markup_snoc seg (text st) m Hseg Hm).
  - unfold nonempty in Hne. destruct (text st) as [|c rest] eqn:Ht; [discriminate|].
    rewrite <- Ht in Hm. rewrite (body_literal st c rest Ht Hm) in Hb.
    inversion Hb; subst st'; clear Hb. simpl.
    exists (pre ++ seg ++ [c]), []. simpl.
    rewrite !len_app, len_cons. change (len (@nil ascii)) with 0.
    repeat split; try lia.
    + rewrite Hraw. rewrite <- !app_assoc. reflexivity.
    + constructor.
    + apply laid_out_snoc; [exact Hlaid|].
      intros c0 a o He. inversion He; subst.
      exists pre, seg, rest. repeat split; auto. lia.
    + intros e after He. destruct (result st) as [|e0 r] eqn:Hr.
      * simpl in He. inversion He; subst. simpl. unfold offset_of. simpl.
        apply Hempty. reflexivity.
      * simpl in He. inversion He; subst. apply (Hfirst e r eq_refl).
    + intros He. destruct (result st); discriminate.
Qed.

Lemma run_invariant (raw : str) (colours : option colour_tuple) (st : state) :
  run raw colours = Ok st -> markup_invariant raw st.
Proof.
  unfold run. apply while_invariant.
  - intros s s' Hc Hs Hb. exact (invariant_step raw s s' Hc Hs Hb).
  - apply invariant_initial.
Qed.

(** C3, amended. The offsets of the markup parser follow the raw text.  A
    colour sequence emits no entry and leaves alone the offset the next
    entry will carry, but advances the raw offset by the length of the
    sequence; a literal character is stored with the pending offset and then
    sets it to the raw position just past the character.  So in every
    result the first entry has offset 0, the offset of a character entry is
    the raw position where the markup before the character starts, and the
    offset of the entry after it is the raw position just past the
    character.  Parsing the text dollar, brace, 1, brace, H, i with no
    colours yields H at offset 0 and i at offset 5. *)
Theorem markup_offsets_are_raw_positions :
  (forall (st st' : state) (m : colour_match),
     _colour_sequence_match (text st) = Some m ->
     body st = Ok st' ->
     result st' = result st
     /\ last_offset st' = last_offset st
     /\ offset st' = offset st + len (token_text m)
     /\ text st = token_text m ++ text st')
  /\ (forall (st : state) (c : ascii) (rest : str),
        text st = c :: rest ->
        _colour_sequence_match (text st) = None ->
        body st =
        Ok (mkState (result st ++ [(Some [c], attributes st, last_offset st)])
              (attributes st) (offset st + 1) (offset st + 1) rest))
  /\ (forall (raw : str) (colours : option colour_tuple) (p : Parser element),
        reset raw colours = Ok p ->
        (forall e after, _result p = e :: after -> offset_of e = 0)
        /\ (forall before after c a o,
              _result p = before ++ (Some [c], a, o) :: after ->
              exists pre seg post,
                raw = pre ++ seg ++ c :: post
                /\ len pre = o
                /\ markup_run seg
                /\ (forall e' after', after = e' :: after' ->
                      offset_of e' = o + len seg + 1)))
  /\ reset (lit "${1}Hi") None =
     Ok (mkParser (lit "${1}Hi") None 2
           [(Some (lit "H"), (Some 1, Some 0, None), 0);
            (Some (lit "i"), (Some 1, Some 0, None), 5)]).
Proof.
  split; [exact body_token|]. split; [exact body_literal|]. split; [|reflexivity].
  intros raw colours p. unfold reset.
  destruct (run raw colours) as [st| |] eqn:Hrun; simpl; try discriminate.
  intros H. inversion H; subst p; clear H. simpl.
  destruct (run_invariant _ _ _ Hrun)
    as (pre & seg & Hraw & Hpre & Hoff & Hseg & Hlaid & Hfirst & Hempty).
  assert (Hall : laid_out raw
            (if last_offset st =? offset st then result st
             else result st ++ [(None, attributes st, last_offset st)])
            (last_offset st)).
  { destruct (last_offset st =? offset st); [exact Hlaid|].
    apply laid_out_snoc; [exact Hlaid|]. intros c a o He. discriminate. }
  split.
  - intros e after He. destruct (last_offset st =? offset st).
    + exact (Hfirst e after He).
    + destruct (result st) as [|e0 r] eqn:Hr; simpl in He; inversion He; subst.
      * apply Hempty. reflexivity.
      * exact (Hfirst e r eq_refl).
  - intros before after c a o He.
    destruct (Hall before after c a o He) as (pre1 & seg1 & post & H1 & H2 & H3 & H4).
    exists pre1, seg1, post. repeat split; auto.
    intros e' after' ->. exact H4.
Qed.

End AsciimaticsParserProperties.

(** C3, as the specification states it, fails: the i of the text dollar,
    brace, 1, brace, H, i is stored with offset 5, its position in the raw
    text, not with its position 1 in the rendered text. *)
Lemma markup_offsets_counterexample :
  exists p : Parser element,
    @AsciimaticsParser.reset sample_constants (lit "${1}Hi") None = Ok p
    /\ parse p = [(Some (lit "H"), (Some 1, Some 0, None), 0);
                  (Some (lit "i"), (Some 1, Some 0, None), 5)]
    /\ parse p <> [(Some (lit "H"), (Some 1, Some 0, None), 0);
                   (Some (lit "i"), (Some 1, Some 0, None), 1)].
Proof.
  eexists. split; [reflexivity|]. split; [reflexivity|]. discriminate.
Qed.

Lemma markup_offsets_are_raw_positions_witness :
  (forall e after,
     [(Some (lit "H"), (Some 1, Some 0, None), 0);
      (Some (lit "i"), (Some 1, Some 0, None), 5)] = e :: after ->
     offset_of e = 0)
  /\ (forall before after c a o,
        [(Some (lit "H"), (Some 1, Some 0, None), 0);
         (Some (lit "i"), (Some 1, Some 0, None), 5)]
        = before ++ (Some [c], a, o) :: after ->
        exists pre seg post,
          lit "${1}Hi" = pre ++ seg ++ c :: post
          /\ len pre = o
          /\ markup_run seg
          /\ (forall e' after', after = e' :: after' ->
                offset_of e' = o + len seg + 1)).
Proof.
  destruct (@markup_offsets_are_raw_positions sample_constants)
    as (_ & _ & Hglobal & _).
  apply (Hglobal (lit "${1}Hi") None
           (mkParser (lit "${1}Hi") None 2
              [(Some (lit "H"), (Some 1, Some 0, None), 0);
               (Some (lit "i"), (Some 1, Some 0, None), 5)])).
  reflexivity.
Defined.

(** ** AnsiTerminalParser: the control-sequence pattern *)

Section AnsiTerminalParserProperties.
Import AnsiTerminalParser.
Context {K : Constants}.

Lemma scan_parameters_some (t p : str) (f : ascii) :
  scan_parameters t = Some (p, f) <->
  exists rest, t = p ++ f :: rest /\ forallb (fun c => negb (is_final c)) p = true
               /\ is_final f = true.
Proof.
  split.
  - revert p. induction t as [|c t IH]; intros p H; simpl in H; [discriminate|].
    destruct (is_final c) eqn:Hc.
    + inversion H; subst. exists t. auto.
    + destruct (scan_parameters t) as [[p' f']|]; [|discriminate].
      inversion H; subst. destruct (IH p' eq_refl) as (rest & -> & Hp & Hf).
      exists rest. simpl. rewrite Hc, Hp. auto.
  - intros (rest & -> & Hp & Hf). induction p as [|c p IH]; simpl in *.
    + rewrite Hf. reflexivity.
    + apply andb_prop in Hp. destruct Hp as [Hc Hp].
      apply negb_true_iff in Hc. rewrite Hc, (IH Hp). reflexivity.
Qed.

Lemma scan_parameters_none (t : str) :
  scan_parameters t = None <-> forallb (fun c => negb (is_final c)) t = true.
Proof.
  induction t as [|c t IH]; simpl; [tauto|].
  destruct (is_final c); simpl.
  - split; discriminate.
  - destruct (scan_parameters t) as [[p f]|].
    + split; [discriminate|]. intros H. apply IH in H. discriminate.
    + split; [|reflexivity]. intros _. apply IH. reflexivity.
Qed.

(** The pattern fails exactly when the escape character is not followed by
    an opening bracket, or no final character follows the bracket. *)
Lemma no_match_iff (rest : str) :
  _colour_sequence_match (ESC :: rest) = None <->
  match rest with
  | [] => True
  | b :: t => b <> "["%char \/ forallb (fun c => negb (is_final c)) t = true
  end.
Proof.
  destruct rest as [|b t]; simpl; [tauto|].
  destruct (Ascii.eqb_spec b "[") as [->|Hb]; simpl.
  - rewrite <- scan_parameters_none.
    destruct (scan_parameters t) as [[p f]|].
    + split; [discriminate|]. intros [H|H]; [congruence|discriminate].
    + tauto.
  - tauto.
Qed.

(** A match spans at least three characters of the text it is found in. *)
Lemma match_group1 (t : str) (m : csi_match) :
  _colour_sequence_match t = Some m ->
  exists rest, t = group1 m ++ rest /\ group1 m = ESC :: "["%char :: group2 m ++ [group3 m].
Proof.
  destruct t as [|e [|b t]]; simpl; try discriminate.
  destruct (Ascii.eqb_spec e ESC) as [->|]; [|discriminate].
  destruct (Ascii.eqb_spec b "[") as [->|]; [|discriminate]. simpl.
  destruct (scan_parameters t) as [[p f]|] eqn:Hs; [|discriminate].
  intros H. inversion H; subst; clear H. simpl.
  apply scan_parameters_some in Hs. destruct Hs as (rest & -> & _).
  exists rest. split; [|reflexivity].
  rewrite <- app_assoc. reflexivity.
Qed.

Lemma match_group1_len (t : str) (m : csi_match) :
  _colour_sequence_match t = Some m -> 3 <= len (group1 m) <= len t.
Proof.
  intros H. destruct (match_group1 t m H) as (rest & -> & ->).
  pose proof (len_nonneg rest). pose proof (len_nonneg (group2 m)).
  rewrite !len_app, !len_cons, !len_app, !len_cons.
  change (len (@nil ascii)) with 0. lia.
Qed.

(** ** AnsiTerminalParser: one iteration of the loop *)

(** [_handle_escape] leaves the text, the offsets alone and asks to skip at
    least two characters. *)
Lemma handle_escape_frame (st st' : state) (n : Z) :
  _handle_escape st = Ok (st', n) ->
  text st' = text st /\ offset st' = offset st /\ last_offset st' = last_offset st
  /\ 2 <= n.
Proof.
  unfold _handle_escape.
  destruct (_colour_sequence_match (text st)) as [m|] eqn:Hm.
  - pose proof (match_group1_len _ _ Hm) as Hlen.
    unfold count_parameter, int_or_raise.
    repeat match goal with
    | |- context [if ?b then _ else _] => destruct b
    | |- context [match ?x with _ => _ end] => destruct x
    end; simpl; intros H; inversion H; subst; simpl; repeat split; lia.
  - intros H. inversion H; subst. repeat split; lia.
Qed.

Lemma handle_escape_within_fuel (st : state) : _handle_escape st <> OutOfFuel.
Proof.
  unfold _handle_escape, count_parameter, int_or_raise.
  repeat match goal with
  | |- context [if ?b then _ else _] => destruct b
  | |- context [match ?x with _ => _ end] => destruct x
  end; simpl; discriminate.
Qed.

(** The body consumes the head of the text and at least one character. *)
Lemma body_consumes (st st' : state) :
  text st <> [] -> body st = Ok st' ->
  exists n, 1 <= n /\ text st' = skipn (Z.to_nat n) (text st)
            /\ offset st' = offset st + n.
Proof.
  unfold body. destruct (text st) as [|c t] eqn:Ht; [congruence|]. intros _.
  destruct (ord c >? 31).
  { simpl. intros H. inversion H; subst; clear H. simpl.
    exists 1. rewrite Ht, slice_from_nonneg by lia. repeat split; lia. }
  destruct (ord c =? 8).
  { simpl. intros H. inversion H; subst; clear H. simpl.
    exists 1. rewrite Ht, slice_from_nonneg by lia. repeat split; lia. }
  destruct (ord c =? 13).
  { simpl. intros H. inversion H; subst; clear H. simpl.
    exists 1. rewrite Ht, slice_from_nonneg by lia. repeat split; lia. }
  destruct (ord c =? 27).
  - destruct (_handle_escape st) as [[st1 n]| |] eqn:He; simpl; try discriminate.
    destruct (handle_escape_frame _ _ _ He) as (Htext & Hoff & _ & Hn).
    intros H. inversion H; subst; clear H. simpl.
    exists n. rewrite Htext, Hoff, Ht, slice_from_nonneg by lia.
    repeat split; lia.
  - simpl. intros H. inversion H; subst; clear H. simpl.
    exists 1. rewrite Ht, slice_from_nonneg by lia. repeat split; lia.
Qed.

Lemma body_shortens (st st' : state) :
  nonempty st = true -> body st = Ok st' ->
  (length (text st') < length (text st))%nat.
Proof.
  unfold nonempty, len. intros Hne Hb.
  assert (Ht : text st <> []) by (destruct (text st); [discriminate|congruence]).
  destruct (body_consumes _ _ Ht Hb) as (n & Hn & -> & _).
  rewrite length_skipn. destruct (text st); [congruence|]. simpl length. lia.
Qed.

Lemma body_within_fuel (st : state) : body st <> OutOfFuel.
Proof.
  unfold body. destruct (text st) as [|c t]; [discriminate|].
  destruct (ord c >? 31); [discriminate|].
  destruct (ord c =? 8); [discriminate|].
  destruct (ord c =? 13); [discriminate|].
  destruct (ord c =? 27); [|discriminate].
  pose proof (handle_escape_within_fuel st).
  destruct (_handle_escape st) as [[st1 n]| |]; simpl; congruence.
Qed.

(** The loop of [reset] ends within its bound: it returns or raises. *)
Lemma run_terminates (raw : str) (colours : option colour_tuple) :
  run raw colours <> OutOfFuel.
Proof.
  unfold run.
  apply (while_terminates nonempty body (fun st => length (text st))).
  - unfold nonempty, len. intros s H. destruct (text s); [discriminate|simpl; lia].
  - apply body_shortens.
  - apply body_within_fuel.
  - simpl. lia.
Qed.

Lemma run_exhausts (raw : str) (colours : option colour_tuple) (st : state) :
  run raw colours = Ok st -> text st = [].
Proof.
  intros H. apply while_exit in H. unfold nonempty, len in H.
  destruct (text st); [reflexivity|].
  rewrite Z.gtb_ltb in H. apply Z.ltb_ge in H. simpl length in H. lia.
Qed.

(** A printable character met with the cursor at or past the end of the
    buffer is appended to the buffer. *)
Lemma body_printable_at_end (st : state) (c : ascii) (rest : str) :
  text st = c :: rest -> 31 < ord c -> len (result st) <= cursor st ->
  body st =
  Ok (mkState (result st ++ [(Some [c], attributes st, last_offset st)])
        (attributes st) (offset st + 1) (offset st + 1) (cursor st + 1) rest).
Proof.
  intros H Hc Hcur. unfold body. rewrite H.
  replace (ord c >? 31) with true by (symmetry; apply Z.gtb_lt; exact Hc).
  simpl. unfold set_text, set_offset, set_last_offset, set_cursor, set_result.
  simpl. rewrite slice_from_nonneg by lia.
  rewrite slice_assign_past_end by lia. rewrite H. reflexivity.
Qed.

(** The loop on a run of printable characters, started at the end of the
    buffer with both offsets there. *)
Lemma run_plain (t : str) :
  printable t ->
  forall (fuel : nat) (r : list element) (a : colour_tuple),
    (length t <= fuel)%nat ->
    while fuel nonempty body (mkState r a (len r) (len r) (len r) t) =
    Ok (mkState (r ++ plain_entries a (len r) t) a
          (len r + len t) (len r + len t) (len r + len t) []).
Proof.
  induction 1 as [|c t Hc Ht IH]; intros fuel r a Hfuel.
  - change (len (@nil ascii)) with 0.
    destruct fuel; simpl; rewrite app_nil_r, Z.add_0_r; reflexivity.
  - destruct fuel as [|fuel]; [simpl in Hfuel; lia|].
    cbn [while]. unfold nonempty at 1. cbn [text].
    replace (len (c :: t) >? 0) with true
      by (symmetry; apply Z.gtb_lt; rewrite len_cons;
          pose proof (len_nonneg t); lia).
    rewrite (body_printable_at_end (mkState r a (len r) (len r) (len r) (c :: t))
               c t eq_refl Hc) by (simpl; lia).
    simpl bind. cbn [result attributes offset last_offset cursor].
    assert (Hlen : len (r ++ [(Some [c], a, len r)]) = len r + 1).
    { rewrite len_app, len_cons. reflexivity. }
    rewrite <- Hlen. rewrite IH by (simpl in Hfuel; lia).
    rewrite Hlen, <- app_assoc, len_cons. simpl.
    do 2 f_equal; lia.
Qed.

(** [normalize] walks over plain entries with unset colours without
    emitting a control sequence. *)
Lemma normalize_plain (t : str) :
  forall (new_value : str) (done : list element),
    fold_left normalize_element (plain_entries unset (len new_value) t)
      (new_value, unset, len new_value, done) =
    (new_value ++ t, unset, len (new_value ++ t),
     done ++ plain_entries unset (len new_value) t).
Proof.
  induction t as [|c t IH]; intros new_value done; simpl.
  - rewrite !app_nil_r. reflexivity.
  - assert (Hlen : len (new_value ++ [c]) = len new_value + 1).
    { rewrite len_app, len_cons. reflexivity. }
    rewrite <- Hlen, IH, <- !app_assoc. reflexivity.
Qed.

(** On a text of printable characters alone, parsed with no colours, the
    round trip holds: [normalize] returns the text itself and leaves the
    parse as it is. *)
Lemma round_trip_plain (t : str) :
  printable t ->
  reset t None = Ok (mkParser t None 0 (plain_entries unset 0 t))
  /\ normalize (mkParser t None 0 (plain_entries unset 0 t)) =
     (t, mkParser t None 0 (plain_entries unset 0 t)).
Proof.
  intros Ht. split.
  - pose proof (run_plain t Ht (length t) [] unset (le_n _)) as Hrun.
    change (len (@nil element)) with 0 in Hrun. simpl in Hrun.
    unfold reset, run, initial_state. rewrite Hrun. simpl.
    unfold finish. simpl. rewrite Z.eqb_refl.
    assert (Hl : forall i, len (plain_entries unset i t) = len t).
    { clear. induction t as [|c t' IH']; intros i; simpl; [reflexivity|].
      rewrite !len_cons, IH'. reflexivity. }
    rewrite Hl, Z.sub_diag. reflexivity.
  - pose proof (normalize_plain t [] []) as Hn.
    change (len (@nil ascii)) with 0 in Hn. simpl in Hn.
    unfold normalize. cbn [_result _cursor _attributes].
    unfold str in *. rewrite Hn. reflexivity.
Qed.

(** The head of a text the pattern matches is the escape character. *)
Lemma match_head (t : str) (m : csi_match) :
  _colour_sequence_match t = Some m -> exists rest, t = ESC :: rest.
Proof.
  intros H. destruct (match_group1 t m H) as (rest & -> & ->).
  eexists. reflexivity.
Qed.

(** An iteration raises exactly when the text starts with a delete or
    cursor sequence whose parameter field is neither empty nor an integer;
    the exception is then ValueError. *)
Lemma body_raises_iff (st : state) (e : exn) :
  body st = Raise e <->
  e = ValueError
  /\ exists m, _colour_sequence_match (text st) = Some m
               /\ In (group3 m) ["P"; "C"; "D"]%char
               /\ group2 m <> []
               /\ py_int (group2 m) = None.
Proof.
  split.
  - unfold body. destruct (text st) as [|c t] eqn:Ht; [discriminate|].
    destruct (ord c >? 31); [discriminate|].
    destruct (ord c =? 8); [discriminate|].
    destruct (ord c =? 13); [discriminate|].
    destruct (ord c =? 27); [|discriminate].
    unfold _handle_escape. rewrite Ht.
    destruct (_colour_sequence_match (c :: t)) as [m|]; [|discriminate].
    destruct (Ascii.eqb (group3 m) "m"); [discriminate|].
    destruct (Ascii.eqb (group3 m) "K").
    { repeat match goal with
      | |- context [if ?b then _ else _] => destruct b
      end; discriminate. }
    unfold count_parameter, int_or_raise.
    destruct (Ascii.eqb_spec (group3 m) "P") as [HP|_].
    { destruct (group2 m) as [|g r] eqn:Hg; [discriminate|].
      destruct (py_int (g :: r)) eqn:Hi; [discriminate|]. simpl.
      intros H. inversion H; subst. split; [reflexivity|].
      exists m. rewrite HP, Hg. simpl. repeat split; auto. discriminate. }
    destruct (Ascii.eqb_spec (group3 m) "C") as [HC|_].
    { destruct (group2 m) as [|g r] eqn:Hg; [discriminate|].
      destruct (py_int (g :: r)) eqn:Hi; [discriminate|]. simpl.
      intros H. inversion H; subst. split; [reflexivity|].
      exists m. rewrite HC, Hg. simpl. repeat split; auto. discriminate. }
    destruct (Ascii.eqb_spec (group3 m) "D") as [HD|_]; [|discriminate].
    destruct (group2 m) as [|g r] eqn:Hg; [discriminate|].
    destruct (py_int (g :: r)) eqn:Hi; [discriminate|]. simpl.
    intros H. inversion H; subst. split; [reflexivity|].
    exists m. rewrite HD, Hg. simpl. repeat split; auto. discriminate.
  - intros (-> & m & Hm & Hin & Hne & Hint).
    destruct (match_head _ _ Hm) as (rest & Ht).
    unfold body, _handle_escape. rewrite Hm, Ht. simpl.
    unfold count_parameter, int_or_raise. rewrite Hint.
    destruct (group2 m) as [|g r]; [congruence|].
    simpl in Hin. destruct Hin as [<-|[<-|[<-|[]]]]; reflexivity.
Qed.

(** [reset] returns or raises ValueError, and it raises only on a text
    that holds such a sequence. *)
Lemma reset_outcome (raw : str) (colours : option colour_tuple) :
  (exists p, reset raw colours = Ok p)
  \/ (reset raw colours = Raise ValueError
      /\ exists st m, body st = Raise ValueError
           /\ _colour_sequence_match (text st) = Some m
           /\ In (group3 m) ["P"; "C"; "D"]%char
           /\ py_int (group2 m) = None).
Proof.
  unfold reset. pose proof (run_terminates raw colours) as Hterm.
  destruct (run raw colours) as [st|e|] eqn:Hrun; [left|right|congruence].
  - eexists. reflexivity.
  - unfold run in Hrun.
    assert (Hsrc : exists st, body st = Raise e).
    { revert Hrun. generalize (initial_state raw colours).
      induction (length raw) as [|n IH]; intros s H; simpl in H;
        destruct (nonempty s); try discriminate.
      destruct (body s) as [s'| |] eqn:Hb; simpl in H; try discriminate.
      - exact (IH s' H).
      - inversion H; subst. exists s. exact Hb. }
    destruct Hsrc as (st & Hb).
    destruct (proj1 (body_raises_iff st e) Hb) as (-> & m & Hm & Hin & _ & Hint).
    split; [reflexivity|]. exists st, m. auto.
Qed.

End AnsiTerminalParserProperties.

(** ** AnsiTerminalParser: the properties of the specification *)

Import AnsiTerminalParser.

(** Runs one iteration of the loop on a text with a known head. *)
Ltac run_body H :=
  unfold body; rewrite H; simpl;
  try (unfold _handle_escape; rewrite H; simpl);
  repeat match goal with
  | |- context [len ?l] =>
      let n := eval vm_compute in (len l) in change (len l) with n
  end;
  try rewrite slice_from_nonneg by lia;
  unfold set_text, set_offset, set_attributes, set_result, set_cursor,
    set_last_offset; simpl; try rewrite H; simpl.

(** C4. SGR reset: whatever the attributes were, processing the sequence
    ESC [ 0 m makes them exactly (COLOUR_WHITE, A_NORMAL, COLOUR_BLACK); the
    buffer and the cursor are untouched, so the sequence emits no glyph, and
    the parser moves past the four characters.  Parsing that sequence alone
    yields a single attribute-only entry with these colours. *)
Theorem sgr_reset_restores_defaults {K : Constants} (st : state) (rest : str) :
  text st = ESC :: lit "[0m" ++ rest ->
  body st =
    Ok (mkState (result st)
          (Some COLOUR_WHITE, Some A_NORMAL, Some COLOUR_BLACK)
          (offset st + 4) (last_offset st) (cursor st) rest)
  /\ forall colours,
       reset (ESC :: lit "[0m") colours =
       Ok (mkParser (ESC :: lit "[0m") colours 0
             [(None, (Some COLOUR_WHITE, Some A_NORMAL, Some COLOUR_BLACK), 0)]).
Proof.
  intros H. split.
  - run_body H. reflexivity.
  - intros colours. reflexivity.
Qed.

Lemma sgr_reset_restores_defaults_witness :
  @body sample_constants (sample_state (ESC :: lit "[0m" ++ lit "x")) =
  Ok (mkState (result (sample_state [])) (Some 7, Some 2, Some 0) 6 2 2 (lit "x")).
Proof.
  apply (@sgr_reset_restores_defaults sample_constants
           (sample_state (ESC :: lit "[0m" ++ lit "x")) (lit "x")).
  reflexivity.
Defined.

(** C5. SGR colour set: processing ESC [ 3 1 m sets the foreground to 1 and
    keeps the style and the background as they were.  More generally, at
    the top level of the parameter stream a parameter from 30 to 37 sets
    only the foreground, to the value less 30, and a parameter from 40 to 47
    sets only the background, to the value less 40. *)
Theorem sgr_colour_sets_one_component {K : Constants} :
  (forall (st : state) (rest : str),
     text st = ESC :: lit "[31m" ++ rest ->
     body st =
     Ok (mkState (result st)
           (Some 1, get_index (attributes st) 1, get_index (attributes st) 2)
           (offset st + 5) (last_offset st) (cursor st) rest))
  /\ (forall (f : sgr_flags) (attrs : colour_tuple) (field : str) (p : Z),
        in_set_mode f = false -> in_index_mode f = false -> in_rgb_mode f = false ->
        py_int field = Some p ->
        (30 <= p <= 37 ->
         sgr_parameter (f, attrs) field =
         (f, (Some (p - 30), get_index attrs 1, get_index attrs 2)))
        /\ (40 <= p <= 47 ->
            sgr_parameter (f, attrs) field =
            (f, (get_index attrs 0, get_index attrs 1, Some (p - 40))))).
Proof.
  split.
  - intros st rest H. run_body H.
    destruct (attributes st) as [[fg sty] bg]. reflexivity.
  - intros f [[fg sty] bg] field p Hset Hidx Hrgb Hint.
    unfold sgr_parameter. rewrite Hint, Hset, Hidx, Hrgb.
    split; intros Hp.
    + repeat match goal with
      | |- context [?a =? ?b] => destruct (Z.eqb_spec a b); [lia|]
      end. simpl.
      destruct (Z.leb_spec 30 p); [|lia]. destruct (Z.ltb_spec p 38); [|lia].
      reflexivity.
    + repeat match goal with
      | |- context [?a =? ?b] => destruct (Z.eqb_spec a b); [lia|]
      end. simpl.
      destruct (Z.leb_spec 30 p); [|lia]. destruct (Z.ltb_spec p 38); [lia|].
      destruct (Z.leb_spec 40 p); [|lia]. destruct (Z.ltb_spec p 48); [|lia].
      reflexivity.
Qed.

Lemma sgr_colour_sets_one_component_witness :
  @body sample_constants (sample_state (ESC :: lit "[31m" ++ lit "x")) =
    Ok (mkState (result (sample_state [])) (Some 1, Some 1, Some 6) 7 2 2 (lit "x"))
  /\ @sgr_parameter sample_constants (sgr_start, (Some 4, Some 1, Some 6)) (lit "36") =
     (sgr_start, (Some 6, Some 1, Some 6))
  /\ @sgr_parameter sample_constants (sgr_start, (Some 4, Some 1, Some 6)) (lit "40") =
     (sgr_start, (Some 4, Some 1, Some 0)).
Proof.
  destruct (@sgr_colour_sets_one_component sample_constants) as [Hbody Hparam].
  split; [|split].
  - apply (Hbody (sample_state (ESC :: lit "[31m" ++ lit "x")) (lit "x")). reflexivity.
  - apply (Hparam sgr_start (Some 4, Some 1, Some 6) (lit "36") 36);
      try reflexivity. lia.
  - apply (Hparam sgr_start (Some 4, Some 1, Some 6) (lit "40") 40);
      try reflexivity. lia.
Defined.

(** C6. Cursor clamping: a backspace met with the cursor at 0 leaves it at
    0; from any cursor it leaves [max (cursor - 1) 0], which is never
    negative; and a whole run of backspaces from cursor 0 ends with the
    cursor at 0.  A carriage return sets the cursor to 0 whatever it was.
    Neither changes the buffer. *)
Theorem backspace_and_return_clamp {K : Constants} :
  (forall (st : state) (rest : str),
     text st = BS :: rest -> cursor st = 0 ->
     body st =
     Ok (mkState (result st) (attributes st) (offset st + 1) (last_offset st)
           0 rest))
  /\ (forall (st : state) (rest : str),
        text st = BS :: rest ->
        exists st', body st = Ok st'
                    /\ cursor st' = Z.max (cursor st - 1) 0
                    /\ 0 <= cursor st'
                    /\ result st' = result st)
  /\ (forall (n : nat) (st : state),
        text st = repeat BS n -> cursor st = 0 ->
        while n nonempty body st =
        Ok (mkState (result st) (attributes st) (offset st + Z.of_nat n)
              (last_offset st) 0 []))
  /\ (forall (st : state) (rest : str),
        text st = CR :: rest ->
        body st =
        Ok (mkState (result st) (attributes st) (offset st + 1) (last_offset st)
              0 rest)).
Proof.
  assert (Hbs : forall (st : state) (rest : str),
             text st = BS :: rest ->
             body st =
             Ok (mkState (result st) (attributes st) (offset st + 1)
                   (last_offset st) (Z.max (cursor st - 1) 0) rest)).
  { intros st rest H. run_body H. reflexivity. }
  split; [|split; [|split]].
  - intros st rest H Hc. rewrite (Hbs st rest H), Hc. reflexivity.
  - intros st rest H. eexists. split; [exact (Hbs st rest H)|]. simpl.
    repeat split; lia.
  - induction n as [|n IH]; intros st Ht Hc.
    + simpl. unfold nonempty. rewrite Ht. simpl.
      destruct st; simpl in *; subst. rewrite Z.add_0_r. reflexivity.
    + cbn [while]. unfold nonempty at 1. rewrite Ht.
      replace (len (repeat BS (S n)) >? 0) with true
        by (symmetry; apply Z.gtb_lt;
            change (repeat BS (S n)) with (BS :: repeat BS n); rewrite len_cons;
            pose proof (len_nonneg (repeat BS n)); lia).
      rewrite (Hbs st (repeat BS n) Ht), Hc. simpl bind.
      rewrite IH by reflexivity. simpl. do 2 f_equal. lia.
  - intros st rest H. run_body H. reflexivity.
Qed.

Lemma backspace_and_return_clamp_witness :
  @body sample_constants (mkState [] unset 0 0 0 [BS; "x"%char]) =
    Ok (mkState [] unset 1 0 0 ["x"%char])
  /\ (exists st',
        @body sample_constants (sample_state [BS; "x"%char]) = Ok st'
        /\ cursor st' = Z.max (cursor (sample_state [BS; "x"%char]) - 1) 0
        /\ 0 <= cursor st'
        /\ result st' = result (sample_state [BS; "x"%char]))
  /\ @while state 3 nonempty (@body sample_constants)
       (mkState [] unset 0 0 0 [BS; BS; BS]) =
     Ok (mkState [] unset 3 0 0 [])
  /\ @body sample_constants (sample_state [CR; "x"%char]) =
     Ok (mkState (result (sample_state [])) (Some 4, Some 1, Some 6) 3 2 0
           ["x"%char]).
Proof.
  destruct (@backspace_and_return_clamp sample_constants)
    as (Hzero & Hbs & Hrun & Hcr).
  split; [|split; [|split]].
  - apply (Hzero (mkState [] unset 0 0 0 [BS; "x"%char]) ["x"%char]); reflexivity.
  - apply (Hbs (sample_state [BS; "x"%char]) ["x"%char]). reflexivity.
  - apply (Hrun 3%nat (mkState [] unset 0 0 0 [BS; BS; BS])); reflexivity.
  - apply (Hcr (sample_state [CR; "x"%char]) ["x"%char]). reflexivity.
Defined.

(** C7, as the specification states it, fails: with the cursor moved five
    columns past an empty buffer, erasing to the end of the line leaves a
    buffer of no entries, not five. *)
Lemma erase_to_end_counterexample :
  exists st1 st2 : state,
    @body sample_constants
      (initial_state (ESC :: lit "[5C" ++ ESC :: lit "[K") None) = Ok st1
    /\ text st1 = ESC :: lit "[K"
    /\ cursor st1 = 5
    /\ @body sample_constants st1 = Ok st2
    /\ len (result st2) = 0
    /\ len (result st2) <> cursor st1.
Proof.
  exists (mkState [] unset 4 0 5 (ESC :: lit "[K")), (mkState [] unset 7 0 5 []).
  repeat split; try reflexivity. discriminate.
Qed.

(** C7, amended. Erase to end of line: processing ESC [ K or ESC [ 0 K leaves
    the buffer as its slice up to the cursor.  That is exactly the first [k]
    entries, unchanged, when the cursor [k] lies within the buffer; the whole
    buffer when the cursor is past its end; and the buffer without its last
    [-k] entries when the cursor is negative. *)
Theorem erase_to_end_is_a_slice {K : Constants} (st : state) (param rest : str) :
  param = [] \/ param = lit "0" ->
  text st = ESC :: "["%char :: param ++ "K"%char :: rest ->
  body st =
    Ok (mkState (slice_to (result st) (cursor st)) (attributes st)
          (offset st + (3 + len param)) (last_offset st) (cursor st) rest)
  /\ (0 <= cursor st <= len (result st) ->
      slice_to (result st) (cursor st) = firstn (Z.to_nat (cursor st)) (result st)
      /\ len (slice_to (result st) (cursor st)) = cursor st)
  /\ (len (result st) <= cursor st ->
      slice_to (result st) (cursor st) = result st)
  /\ (cursor st < 0 ->
      slice_to (result st) (cursor st) =
      firstn (Z.to_nat (len (result st) + cursor st)) (result st)).
Proof.
  intros Hp H. split; [|split; [|split]].
  - destruct Hp as [-> | ->]; simpl in H; run_body H; reflexivity.
  - apply slice_to_in_range.
  - apply slice_to_past_end.
  - apply slice_to_negative.
Qed.

Lemma erase_to_end_is_a_slice_witness :
  @body sample_constants
    (mkState [(Some ["a"], unset, 0); (Some ["b"], unset, 1)] unset 3 2 1
       (ESC :: lit "[0Kx")) =
  Ok (mkState [(Some ["a"], unset, 0)] unset 7 2 1 (lit "x")).
Proof.
  apply (@erase_to_end_is_a_slice sample_constants
           (mkState [(Some ["a"], unset, 0); (Some ["b"], unset, 1)] unset 3 2 1
              (ESC :: lit "[0Kx"))
           (lit "0") (lit "x")).
  - right. reflexivity.
  - reflexivity.
Defined.

(** C8. Unmatched escape: when the escape character does not start a
    complete control sequence, the iteration skips two characters (the
    offset advances by two and the text loses its first two characters,
    which is exactly two shorter when a character follows the escape) and
    leaves the buffer, the cursor and the attributes as they were. *)
Theorem unmatched_escape_skips_two {K : Constants} (st : state) (rest : str) :
  text st = ESC :: rest ->
  _colour_sequence_match (text st) = None ->
  body st =
    Ok (mkState (result st) (attributes st) (offset st + 2) (last_offset st)
          (cursor st) (skipn 2 (text st)))
  /\ (rest <> [] -> (length (skipn 2 (text st)) + 2 = length (text st))%nat).
Proof.
  intros H Hm. split.
  - unfold body, _handle_escape. rewrite Hm, H. simpl.
    unfold set_text, set_offset. simpl.
    rewrite slice_from_nonneg by lia. rewrite H. reflexivity.
  - intros Hr. rewrite H. destruct rest; [congruence|]. simpl. lia.
Qed.

Lemma unmatched_escape_skips_two_witness :
  @body sample_constants (sample_state (ESC :: lit "(Bx")) =
  Ok (mkState (result (sample_state [])) (Some 4, Some 1, Some 6) 4 2 2 (lit "Bx")).
Proof.
  apply (@unmatched_escape_skips_two sample_constants
           (sample_state (ESC :: lit "(Bx")) (lit "(Bx")); reflexivity.
Defined.

(** C9. Reported cursor: when [reset] completes, the cursor it reports is
    the length of the buffer the loop ended with less the internal cursor,
    so an internal cursor at the end of the buffer reports 0.  The stored
    result is that buffer, followed by one attribute-only entry when the
    two offsets differ. *)
Theorem reported_cursor_is_distance_from_end {K : Constants}
  (raw : str) (colours : option colour_tuple) (p : Parser element) :
  reset raw colours = Ok p ->
  exists st : state,
    run raw colours = Ok st
    /\ text st = []
    /\ cursor_property p = len (result st) - cursor st
    /\ (cursor st = len (result st) -> cursor_property p = 0)
    /\ (_result p = result st
        \/ _result p = result st ++ [(None, attributes st, last_offset st)]).
Proof.
  unfold reset. destruct (run raw colours) as [st| |] eqn:Hrun; simpl; try discriminate.
  intros H. inversion H; subst; clear H. exists st.
  split; [reflexivity|]. split; [exact (run_exhausts _ _ _ Hrun)|].
  unfold cursor_property, finish; simpl.
  split; [reflexivity|]. split; [lia|].
  destruct (last_offset st =? offset st); auto.
Qed.

Lemma reported_cursor_is_distance_from_end_witness :
  exists st : state,
    @run sample_constants (lit "ab" ++ [BS]) None = Ok st
    /\ text st = []
    /\ cursor_property (mkParser (lit "ab" ++ [BS]) None 1
                          [(Some ["a"], unset, 0); (Some ["b"], unset, 1);
                           (None, unset, 2)]) = len (result st) - cursor st
    /\ (cursor st = len (result st) ->
        cursor_property (mkParser (lit "ab" ++ [BS]) None 1
                           [(Some ["a"], unset, 0); (Some ["b"], unset, 1);
                            (None, unset, 2)]) = 0)
    /\ (_result (mkParser (lit "ab" ++ [BS]) None 1
                   [(Some ["a"], unset, 0); (Some ["b"], unset, 1);
                    (None, unset, 2)]) = result st
        \/ _result (mkParser (lit "ab" ++ [BS]) None 1
                      [(Some ["a"], unset, 0); (Some ["b"], unset, 1);
                       (None, unset, 2)]) =
           result st ++ [(None, attributes st, last_offset st)]).
Proof.
  apply (@reported_cursor_is_distance_from_end sample_constants
           (lit "ab" ++ [BS]) None).
  reflexivity.
Defined.

(** C10. Writing past the end: when the internal cursor is beyond the end
    of the buffer, a printable character is appended at the end of the
    buffer, with no padding, and the cursor still advances by one.  A loop
    that ends with the cursor beyond the buffer reports a negative cursor,
    as parsing ESC [ 5 C a does: it reports -5. *)
Theorem write_past_end_appends {K : Constants} :
  (forall (st : state) (c : ascii) (rest : str),
     text st = c :: rest -> 31 < ord c -> len (result st) < cursor st ->
     body st =
     Ok (mkState (result st ++ [(Some [c], attributes st, last_offset st)])
           (attributes st) (offset st + 1) (offset st + 1) (cursor st + 1) rest))
  /\ (forall (raw : str) (colours : option colour_tuple) (st : state),
        run raw colours = Ok st -> len (result st) < cursor st ->
        cursor_property (finish raw colours st) < 0)
  /\ reset (ESC :: lit "[5Ca") None =
     Ok (mkParser (ESC :: lit "[5Ca") None (-5) [(Some ["a"], unset, 0)]).
Proof.
  split; [|split].
  - intros st c rest H Hc Hcur. apply body_printable_at_end; [exact H|exact Hc|lia].
  - intros raw colours st _ Hcur. unfold cursor_property, finish. simpl. lia.
  - reflexivity.
Qed.

Lemma write_past_end_appends_witness :
  @body sample_constants (mkState [] unset 4 0 5 (lit "ab")) =
    Ok (mkState [(Some ["a"], unset, 0)] unset 5 5 6 (lit "b"))
  /\ cursor_property
       (finish (ESC :: lit "[5Ca") None
          (mkState [(Some ["a"], unset, 0)] unset 5 5 6 [])) < 0.
Proof.
  destruct (@write_past_end_appends sample_constants) as (Hbody & Hrun & _).
  split.
  - apply (Hbody (mkState [] unset 4 0 5 (lit "ab")) "a"%char (lit "b"));
      [reflexivity | reflexivity | reflexivity].
  - apply (Hrun (ESC :: lit "[5Ca") None
             (mkState [(Some ["a"], unset, 0)] unset 5 5 6 []));
      reflexivity.
Defined.

(** C1. Round trip through [normalize]: it fails on the text a b CR
    ESC [ 3 1 m X.  The parse holds a red X followed by a b with unset
    colours; [normalize] formats the unset foreground of the b as the word
    None inside a control sequence, and parsing the normalized string again
    yields the glyphs X, o, n, e, m, b, all red. *)
Theorem normalize_round_trip_fails {K : Constants} :
  exists (p p' q : Parser element) (s : str),
    reset (lit "ab" ++ CR :: ESC :: lit "[31mX") None = Ok p
    /\ normalize p = (s, p')
    /\ reset s None = Ok q
    /\ s = ESC :: lit "[38;5;1mX" ++ ESC :: lit "[38;5;Nonemb" ++ ESC :: lit "[1D"
    /\ pairs (parse p) =
       [(Some (lit "X"), (Some 1, None, None)); (Some (lit "b"), unset)]
    /\ pairs (parse p') = pairs (parse p)
    /\ pairs (parse q) =
       [(Some (lit "X"), (Some 1, None, None));
        (Some (lit "o"), (Some 1, None, None));
        (Some (lit "n"), (Some 1, None, None));
        (Some (lit "e"), (Some 1, None, None));
        (Some (lit "m"), (Some 1, None, None));
        (Some (lit "b"), (Some 1, None, None));
        (None, (Some 1, None, None))]
    /\ pairs (parse q) <> pairs (parse p).
Proof.
  do 4 eexists.
  split; [vm_compute; reflexivity|].
  split; [vm_compute; reflexivity|].
  split; [vm_compute; reflexivity|].
  repeat split; try reflexivity. discriminate.
Qed.

(** The round trip also fails with no colour involved: after a b c CR X the
    parse is X b c with the cursor two cells from the end; the normalized
    string ends with a cursor-back sequence, and parsing it again adds an
    attribute-only entry the first parse does not have. *)
Lemma normalize_round_trip_adds_marker {K : Constants} :
  exists (p p' q : Parser element) (s : str),
    reset (lit "abc" ++ CR :: lit "X") None = Ok p
    /\ normalize p = (s, p')
    /\ reset s None = Ok q
    /\ s = lit "Xbc" ++ ESC :: lit "[2D"
    /\ pairs (parse p) =
       [(Some (lit "X"), unset); (Some (lit "b"), unset); (Some (lit "c"), unset)]
    /\ pairs (parse q) = pairs (parse p) ++ [(None, unset)].
Proof.
  do 4 eexists.
  split; [vm_compute; reflexivity|].
  split; [vm_compute; reflexivity|].
  split; [vm_compute; reflexivity|].
  repeat split; reflexivity.
Qed.

(** C2. [reset] is not total: the count of a cursor-forward sequence goes
    through [int] unguarded, so the text ESC [ 1 ; 5 C raises ValueError,
    whatever the initial colours.  In the SGR branch the same conversion is
    guarded, and the same parameter field is accepted. *)
Theorem reset_raises_on_malformed_count {K : Constants}
  (colours : option colour_tuple) :
  reset (ESC :: lit "[1;5C") colours = Raise ValueError
  /\ py_int (lit "1;5") = None
  /\ exists p, reset (ESC :: lit "[1;5m") colours = Ok p.
Proof.
  split; [reflexivity|]. split; [reflexivity|].
  eexists. destruct colours as [[[fg sty] bg]|]; reflexivity.
Qed.

(** * Further properties *)

(** ** AnsiTerminalParser: control sequences in general *)

Lemma csi_match_intro (p : str) (f : ascii) (rest : str) :
  parameter_field p -> is_final f = true ->
  _colour_sequence_match (csi p f ++ rest) = Some (mkMatch (csi p f) p f).
Proof.
  intros Hp Hf. unfold csi. simpl.
  assert (Hs : scan_parameters ((p ++ [f]) ++ rest) = Some (p, f)).
  { apply scan_parameters_some. exists rest. rewrite <- app_assoc. auto. }
  rewrite Hs. reflexivity.
Qed.

Lemma csi_len (p : str) (f : ascii) : len (csi p f) = 3 + len p.
Proof.
  unfold csi. rewrite !len_cons, len_app, len_cons.
  change (len (@nil ascii)) with 0. lia.
Qed.

Lemma slice_from_app {A : Type} (l rest : list A) :
  slice_from (l ++ rest) (len l) = rest.
Proof.
  rewrite slice_from_nonneg by apply len_nonneg.
  unfold len. rewrite Nat2Z.id, skipn_app, skipn_all, Nat.sub_diag. reflexivity.
Qed.

(** An iteration that meets the escape character: [_handle_escape]
    decides how the state changes and how much text is consumed. *)
Lemma body_escape {K : Constants} (st : state) (t : str) :
  text st = ESC :: t ->
  body st =
  (r <- _handle_escape st ;;
   Ok (mkState (result (fst r)) (attributes (fst r)) (offset (fst r) + snd r)
         (last_offset (fst r)) (cursor (fst r))
         (slice_from (text (fst r)) (snd r)))).
Proof.
  intros H. unfold body. rewrite H. simpl.
  destruct (_handle_escape st) as [[st' n]| |]; reflexivity.
Qed.

(** Opens an iteration on the control sequence named in [H]. *)
Ltac run_csi H Hp Hf :=
  rewrite (body_escape _ _ H); unfold _handle_escape;
  rewrite H, (csi_match_intro _ _ _ Hp Hf); cbn [group1 group2 group3];
  cbn [Ascii.eqb Bool.eqb andb].

(** Closes an iteration opened by [run_csi]. *)
Ltac finish_csi H :=
  cbn [bind fst snd result attributes offset last_offset cursor text
       set_result set_cursor set_attributes];
  rewrite ?H, ?slice_from_app, ?csi_len; try reflexivity.

Lemma slice_assign_in_range {A : Type} (l : list A) (c : Z) (x : A) :
  0 <= c < len l ->
  slice_assign l c (c + 1) [x] =
  firstn (Z.to_nat c) l ++ x :: skipn (S (Z.to_nat c)) l.
Proof.
  intros Hc. unfold slice_assign, adjust_index.
  destruct (Z.ltb_spec c 0); [lia|]. destruct (Z.ltb_spec (c + 1) 0); [lia|].
  rewrite !Z.min_l by lia. rewrite Z.max_l by lia.
  replace (Z.to_nat (c + 1)) with (S (Z.to_nat c)) by lia. reflexivity.
Qed.

Lemma nth_error_replace {A : Type} (l : list A) (k : nat) (x : A) :
  (k < length l)%nat ->
  length (firstn k l ++ x :: skipn (S k) l) = length l
  /\ nth_error (firstn k l ++ x :: skipn (S k) l) k = Some x
  /\ forall i, i <> k ->
       nth_error (firstn k l ++ x :: skipn (S k) l) i = nth_error l i.
Proof.
  intros Hk. assert (Hf : length (firstn k l) = k) by (rewrite length_firstn; lia).
  split; [|split].
  - rewrite length_app, Hf, length_cons, length_skipn. lia.
  - rewrite nth_error_app2 by lia. rewrite Hf, Nat.sub_diag. reflexivity.
  - intros i Hi. destruct (Nat.lt_ge_cases i k) as [Hlt|Hge].
    + rewrite nth_error_app1 by lia. rewrite nth_error_firstn.
      destruct (Nat.ltb_spec i k); [reflexivity|lia].
    + rewrite nth_error_app2 by lia. rewrite Hf.
      destruct (i - k)%nat as [|j] eqn:Hj; [lia|].
      change (nth_error (x :: skipn (S k) l) (S j))
        with (nth_error (skipn (S k) l) j).
      rewrite nth_error_skipn. f_equal. lia.
Qed.

(** ** AnsiTerminalParser: editing the buffer *)

(** X1. Overwrite: a printable character met with the cursor inside the
    buffer replaces the entry under the cursor, with the current colours
    and the pending offset; the buffer keeps its length and every other
    entry, and the cursor moves one to the right. *)
Theorem overwrite_in_place {K : Constants} (st : state) (c : ascii) (rest : str) :
  text st = c :: rest -> 31 < ord c -> 0 <= cursor st < len (result st) ->
  exists r' : list element,
    body st =
      Ok (mkState r' (attributes st) (offset st + 1) (offset st + 1)
            (cursor st + 1) rest)
    /\ length r' = length (result st)
    /\ nth_error r' (Z.to_nat (cursor st)) =
       Some (Some [c], attributes st, last_offset st)
    /\ forall i, i <> Z.to_nat (cursor st) ->
         nth_error r' i = nth_error (result st) i.
Proof.
  intros H Hc Hcur.
  exists (firstn (Z.to_nat (cursor st)) (result st)
          ++ (Some [c], attributes st, last_offset st)
             :: skipn (S (Z.to_nat (cursor st))) (result st)).
  split.
  - unfold body. rewrite H.
    replace (ord c >? 31) with true by (symmetry; apply Z.gtb_lt; exact Hc).
    simpl. unfold set_text, set_offset, set_last_offset, set_cursor, set_result.
    simpl. rewrite slice_from_nonneg by lia.
    rewrite slice_assign_in_range by lia. rewrite H. reflexivity.
  - apply nth_error_replace. unfold len in Hcur. lia.
Qed.

Lemma overwrite_in_place_witness :
  exists r' : list element,
    @body sample_constants (mkState (result (sample_state [])) unset 5 5 0 (lit "Zq")) =
      Ok (mkState r' unset 6 6 1 (lit "q"))
    /\ length r' = 2%nat
    /\ nth_error r' 0 = Some (Some (lit "Z"), unset, 5)
    /\ forall i, i <> 0%nat -> nth_error r' i = nth_error (result (sample_state [])) i.
Proof.
  apply (@overwrite_in_place sample_constants
           (mkState (result (sample_state [])) unset 5 5 0 (lit "Zq"))
           "Z"%char (lit "q")); [reflexivity | reflexivity | split; reflexivity || discriminate].
Defined.

(** X2. Delete characters: the sequence ESC [ n P, with the cursor [k]
    inside the buffer and a count [n] that is not negative (1 when the
    parameter field is empty), removes the [n] entries from [k] on, or all
    that are there when fewer remain, and shifts the rest left; the entries
    before the cursor and the cursor itself stay. *)
Theorem delete_characters {K : Constants} (st : state) (p rest : str) (n : Z) :
  parameter_field p ->
  text st = csi p "P" ++ rest ->
  count_parameter p = Ok n ->
  0 <= n -> 0 <= cursor st <= len (result st) ->
  body st =
    Ok (mkState (firstn (Z.to_nat (cursor st)) (result st)
                 ++ skipn (Z.to_nat (cursor st + n)) (result st))
          (attributes st) (offset st + (3 + len p)) (last_offset st)
          (cursor st) rest)
  /\ len (firstn (Z.to_nat (cursor st)) (result st)
          ++ skipn (Z.to_nat (cursor st + n)) (result st)) =
     len (result st) - Z.min n (len (result st) - cursor st).
Proof.
  intros Hp H Hn Hn0 Hcur. split.
  - run_csi H Hp (eq_refl : is_final "P" = true). rewrite Hn. finish_csi H.
    rewrite (proj1 (slice_to_in_range _ _ Hcur)).
    rewrite slice_from_nonneg by lia. reflexivity.
  - unfold len in *. rewrite length_app, length_firstn, length_skipn. lia.
Qed.

Lemma delete_characters_witness :
  @body sample_constants
    (mkState (plain_entries unset 0 (lit "abcde")) unset 9 5 1
       (csi (lit "2") "P" ++ lit "x")) =
  Ok (mkState (plain_entries unset 0 (lit "a") ++ plain_entries unset 3 (lit "de"))
        unset 13 5 1 (lit "x")).
Proof.
  apply (@delete_characters sample_constants
           (mkState (plain_entries unset 0 (lit "abcde")) unset 9 5 1
              (csi (lit "2") "P" ++ lit "x"))
           (lit "2") (lit "x") 2);
    [reflexivity | reflexivity | reflexivity | lia | split; vm_compute; discriminate].
Defined.

(** X3. The other forms of erase in line.  With parameter 1 and a cursor
    [k] that is not negative, the first [k] cells become blanks in the
    current colours (the buffer is filled up with blanks when the cursor is
    past its end) and the entries from [k] on stay.  With parameter 2 the
    buffer becomes [k] blanks and nothing else: the entries at and after the
    cursor are dropped too.  Any other parameter leaves the buffer alone. *)
Theorem erase_in_line_variants {K : Constants} :
  (forall (st : state) (rest : str),
     text st = csi (lit "1") "K" ++ rest -> 0 <= cursor st ->
     body st =
       Ok (mkState (repeat (blank st) (Z.to_nat (cursor st))
                    ++ skipn (Z.to_nat (cursor st)) (result st))
             (attributes st) (offset st + 4) (last_offset st) (cursor st) rest)
     /\ len (repeat (blank st) (Z.to_nat (cursor st))
             ++ skipn (Z.to_nat (cursor st)) (result st)) =
        Z.max (cursor st) (len (result st)))
  /\ (forall (st : state) (rest : str),
        text st = csi (lit "2") "K" ++ rest ->
        body st =
          Ok (mkState (repeat (blank st) (Z.to_nat (cursor st)))
                (attributes st) (offset st + 4) (last_offset st) (cursor st) rest)
        /\ len (repeat (blank st) (Z.to_nat (cursor st))) = Z.max (cursor st) 0)
  /\ (forall (st : state) (p rest : str),
        parameter_field p ->
        text st = csi p "K" ++ rest ->
        p <> [] -> p <> lit "0" -> p <> lit "1" -> p <> lit "2" ->
        body st =
        Ok (mkState (result st) (attributes st) (offset st + (3 + len p))
              (last_offset st) (cursor st) rest)).
Proof.
  split; [|split].
  - intros st rest H Hk. split.
    + run_csi H (eq_refl : parameter_field (lit "1")) (eq_refl : is_final "K" = true).
      simpl. unfold set_result. finish_csi H.
      rewrite slice_from_nonneg by lia. reflexivity.
    + unfold len. rewrite length_app, repeat_length, length_skipn. lia.
  - intros st rest H. split.
    + run_csi H (eq_refl : parameter_field (lit "2")) (eq_refl : is_final "K" = true).
      simpl. unfold set_result. finish_csi H.
    + unfold len. rewrite repeat_length. lia.
  - intros st p rest Hp H H0 H1 H2 H3.
    change (lit "0") with ["0"%char] in H1. change (lit "1") with ["1"%char] in H2.
    change (lit "2") with ["2"%char] in H3.
    run_csi H Hp (eq_refl : is_final "K" = true).
    repeat match goal with
    | |- context [list_eq_dec ascii_dec ?a ?b] =>
        destruct (list_eq_dec ascii_dec a b); [congruence|]
    end.
    finish_csi H.
Qed.

Lemma erase_in_line_variants_witness :
  @body sample_constants (sample_state (csi (lit "1") "K" ++ lit "x")) =
    Ok (mkState [(Some (lit " "), (Some 4, Some 1, Some 6), 2);
                 (Some (lit " "), (Some 4, Some 1, Some 6), 2)]
          (Some 4, Some 1, Some 6) 6 2 2 (lit "x"))
  /\ @body sample_constants (mkState (result (sample_state [])) unset 2 2 1
                               (csi (lit "2") "K" ++ lit "x")) =
     Ok (mkState [(Some (lit " "), unset, 2)] unset 6 2 1 (lit "x"))
  /\ @body sample_constants (sample_state (csi (lit "3") "K" ++ lit "x")) =
     Ok (mkState (result (sample_state [])) (Some 4, Some 1, Some 6) 6 2 2 (lit "x")).
Proof.
  destruct (@erase_in_line_variants sample_constants) as (H1 & H2 & H3).
  split; [|split].
  - apply (H1 (sample_state (csi (lit "1") "K" ++ lit "x")) (lit "x"));
      [reflexivity | discriminate].
  - apply (H2 (mkState (result (sample_state [])) unset 2 2 1
                 (csi (lit "2") "K" ++ lit "x")) (lit "x")).
    reflexivity.
  - apply (H3 (sample_state (csi (lit "3") "K" ++ lit "x")) (lit "3") (lit "x"));
      [reflexivity | reflexivity | discriminate | discriminate | discriminate
      | discriminate].
Defined.

(** ** AnsiTerminalParser: moving the cursor *)

(** X4. Cursor forward and back: ESC [ n C adds the count to the cursor and
    ESC [ n D subtracts it, with no clamping at either end, and neither
    touches the buffer; so a move forward followed by the same move back
    restores the cursor. *)
Theorem cursor_moves_are_inverse {K : Constants}
  (st : state) (p rest : str) (n : Z) :
  parameter_field p -> count_parameter p = Ok n ->
  (text st = csi p "C" ++ rest ->
   body st =
   Ok (mkState (result st) (attributes st) (offset st + (3 + len p))
         (last_offset st) (cursor st + n) rest))
  /\ (text st = csi p "D" ++ rest ->
      body st =
      Ok (mkState (result st) (attributes st) (offset st + (3 + len p))
            (last_offset st) (cursor st - n) rest))
  /\ (text st = csi p "C" ++ csi p "D" ++ rest ->
      (st1 <- body st ;; body st1) =
      Ok (mkState (result st) (attributes st)
            (offset st + (3 + len p) + (3 + len p))
            (last_offset st) (cursor st) rest)).
Proof.
  intros Hp Hn.
  assert (HC : forall (s : state) (r : str), text s = csi p "C" ++ r ->
             body s =
             Ok (mkState (result s) (attributes s) (offset s + (3 + len p))
                   (last_offset s) (cursor s + n) r)).
  { intros s r H. run_csi H Hp (eq_refl : is_final "C" = true).
    rewrite Hn. finish_csi H. }
  assert (HD : forall (s : state) (r : str), text s = csi p "D" ++ r ->
             body s =
             Ok (mkState (result s) (attributes s) (offset s + (3 + len p))
                   (last_offset s) (cursor s - n) r)).
  { intros s r H. run_csi H Hp (eq_refl : is_final "D" = true).
    rewrite Hn. finish_csi H. }
  split; [apply HC|]. split; [apply HD|].
  intros H. rewrite (HC st _ H). cbn [bind].
  rewrite (HD (mkState (result st) (attributes st) (offset st + (3 + len p))
                 (last_offset st) (cursor st + n) (csi p "D" ++ rest))
             rest eq_refl).
  simpl. do 2 f_equal. lia.
Qed.

Lemma cursor_moves_are_inverse_witness :
  (@body sample_constants (sample_state (csi (lit "12") "C" ++ csi (lit "12") "D")) =
   Ok (mkState (result (sample_state [])) (Some 4, Some 1, Some 6) 7 2 14
         (csi (lit "12") "D")))
  /\ (st1 <- @body sample_constants
               (sample_state (csi (lit "12") "C" ++ csi (lit "12") "D")) ;;
      @body sample_constants st1) =
     Ok (mkState (result (sample_state [])) (Some 4, Some 1, Some 6) 12 2 2 []).
Proof.
  destruct (@cursor_moves_are_inverse sample_constants
              (sample_state (csi (lit "12") "C" ++ csi (lit "12") "D"))
              (lit "12") [] 12 eq_refl eq_refl) as (_ & _ & Hboth).
  destruct (@cursor_moves_are_inverse sample_constants
              (sample_state (csi (lit "12") "C" ++ csi (lit "12") "D"))
              (lit "12") (csi (lit "12") "D") 12 eq_refl eq_refl) as (HC & _).
  split.
  - apply HC. reflexivity.
  - apply Hboth. reflexivity.
Defined.

(** ** AnsiTerminalParser: what a control sequence leaves alone *)

(** X5. A control sequence with a final character other than m, K, P, C
    and D is consumed whole and changes nothing else; a sequence with final
    character m never fails, whatever its parameter field holds, and
    changes only the attributes. *)
Theorem control_sequence_frame {K : Constants}
  (st : state) (p : str) (f : ascii) (rest : str) :
  parameter_field p -> is_final f = true ->
  text st = csi p f ++ rest ->
  (~ In f (lit "mKPCD") ->
   body st =
   Ok (mkState (result st) (attributes st) (offset st + (3 + len p))
         (last_offset st) (cursor st) rest))
  /\ (f = "m"%char ->
      body st =
      Ok (mkState (result st) (sgr (attributes st) p) (offset st + (3 + len p))
            (last_offset st) (cursor st) rest)).
Proof.
  intros Hp Hf H. split.
  - intros Hnot. rewrite (body_escape _ _ H). unfold _handle_escape.
    rewrite H, (csi_match_intro _ _ _ Hp Hf). cbn [group1 group2 group3].
    repeat match goal with
    | |- context [Ascii.eqb f ?c] =>
        destruct (Ascii.eqb_spec f c) as [->|];
          [exfalso; apply Hnot; simpl; tauto|]
    end.
    finish_csi H.
  - intros ->. run_csi H Hp Hf. finish_csi H.
Qed.

Lemma control_sequence_frame_witness :
  @body sample_constants (sample_state (csi (lit "?25") "h" ++ lit "x")) =
    Ok (mkState (result (sample_state [])) (Some 4, Some 1, Some 6) 8 2 2 (lit "x"))
  /\ @body sample_constants (sample_state (csi (lit "?;=7") "m" ++ lit "x")) =
     Ok (mkState (result (sample_state []))
          (@sgr sample_constants (Some 4, Some 1, Some 6) (lit "?;=7"))
          9 2 2 (lit "x")).
Proof.
  split.
  - apply (@control_sequence_frame sample_constants
             (sample_state (csi (lit "?25") "h" ++ lit "x")) (lit "?25") "h"%char
             (lit "x") eq_refl eq_refl eq_refl).
    simpl. intros [H|[H|[H|[H|[H|[]]]]]]; discriminate.
  - apply (@control_sequence_frame sample_constants
             (sample_state (csi (lit "?;=7") "m" ++ lit "x")) (lit "?;=7") "m"%char
             (lit "x") eq_refl eq_refl eq_refl).
    reflexivity.
Defined.

(** ** [int] and [format] are inverse *)

Lemma strip_no_space (t : str) : no_space t = true -> strip t = t.
Proof.
  unfold no_space. rewrite forallb_forall. intros H. unfold strip.
  assert (Hl : forall u, (forall c, In c u -> In c t) -> lstrip u = u).
  { intros u Hu. destruct u as [|c u]; [reflexivity|]. simpl.
    specialize (H c (Hu c (or_introl eq_refl))).
    apply negb_true_iff in H. rewrite H. reflexivity. }
  rewrite (Hl t) by auto. rewrite (Hl (rev t)).
  - apply rev_involutive.
  - intros c Hc. apply in_rev. exact Hc.
Qed.

Lemma number_chars_spec (t : str) (c : ascii) :
  number_chars t = true -> In c t ->
  (exists d, digit_value c = Some d) \/ c = "-"%char.
Proof.
  unfold number_chars. rewrite forallb_forall. intros H Hc.
  specialize (H c Hc). destruct (digit_value c) as [d|].
  - left. exists d. reflexivity.
  - right. apply Ascii.eqb_eq. exact H.
Qed.

Lemma digit_not_final (c : ascii) (d : Z) :
  digit_value c = Some d -> AnsiTerminalParser.is_final c = false.
Proof.
  intros H. apply digit_range in H. unfold AnsiTerminalParser.is_final.
  change (ord "@") with 64. destruct (Z.leb_spec 64 (ord c)); [lia|reflexivity].
Qed.

Lemma number_chars_no_space (t : str) : number_chars t = true -> no_space t = true.
Proof.
  intros H. unfold no_space. apply forallb_forall. intros c Hc.
  destruct (number_chars_spec t c H Hc) as [[d Hd]| ->].
  - rewrite (digit_not_space c d Hd). reflexivity.
  - reflexivity.
Qed.

Lemma number_chars_field (t : str) : number_chars t = true -> parameter_field t.
Proof.
  intros H. unfold parameter_field. apply forallb_forall. intros c Hc.
  destruct (number_chars_spec t c H Hc) as [[d Hd]| ->].
  - rewrite (digit_not_final c d Hd). reflexivity.
  - reflexivity.
Qed.

Lemma number_chars_free (t : str) : number_chars t = true -> free_of ";" t = true.
Proof.
  intros H. unfold free_of. apply forallb_forall. intros c Hc.
  destruct (number_chars_spec t c H Hc) as [[d Hd]| ->].
  - rewrite (digit_not_char c ";" d Hd eq_refl). reflexivity.
  - reflexivity.
Qed.

Lemma uint_chars_digits (d : Decimal.uint) : all_digits (uint_chars d) = true.
Proof. induction d; simpl; auto. Qed.

Lemma uint_chars_nonempty (d : Decimal.uint) :
  d <> Decimal.Nil -> uint_chars d <> [].
Proof. destruct d; simpl; congruence || discriminate. Qed.

(** Reads the leading digit of the numeral [D_ d]. *)
Ltac read_digit d :=
  cbn [uint_chars NilEmpty.string_of_uint list_ascii_of_string int_digits];
  fold (uint_chars d); cbn [Ascii.eqb Bool.eqb];
  match goal with
  | |- context [digit_value ?c] =>
      let v := eval vm_compute in (digit_value c) in
      change (digit_value c) with v
  end;
  cbv iota; simpl Z.add.

Lemma int_digits_acc (d : Decimal.uint) (acc : positive) :
  int_digits (Z.pos acc) false (uint_chars d) =
  Some (Z.pos (Pos.of_uint_acc d acc)).
Proof.
  revert acc. induction d; intros acc; try reflexivity;
    read_digit d; cbn [Pos.of_uint_acc]; rewrite <- IHd; f_equal; lia.
Qed.

Lemma int_digits_uint (d : Decimal.uint) :
  int_digits 0 false (uint_chars d) = Some (Z.of_N (Pos.of_uint d)).
Proof.
  induction d; try reflexivity; read_digit d; cbn [Pos.of_uint];
    try exact IHd; apply int_digits_acc.
Qed.

Lemma int_unsigned_uint (d : Decimal.uint) :
  d <> Decimal.Nil ->
  int_unsigned (uint_chars d) = Some (Z.of_N (Pos.of_uint d)).
Proof.
  intros Hd. unfold int_unsigned.
  destruct (uint_chars d) as [|c t] eqn:Hc; [exfalso; exact (uint_chars_nonempty d Hd Hc)|].
  destruct (all_digits_in (c :: t) c) as (v & Hv);
    [rewrite <- Hc; apply uint_chars_digits | left; reflexivity |].
  rewrite Hv, <- Hc. apply int_digits_uint.
Qed.

Lemma format_int_pos (p : positive) :
  format_int (Z.pos p) = uint_chars (Pos.to_uint p).
Proof.
  unfold format_int, uint_chars. simpl.
  pose proof (Unsigned.to_uint_nonnil p).
  destruct (Pos.to_uint p); [congruence|reflexivity..].
Qed.

Lemma format_int_neg (p : positive) :
  format_int (Z.neg p) = "-"%char :: uint_chars (Pos.to_uint p).
Proof.
  unfold format_int, uint_chars. simpl.
  pose proof (Unsigned.to_uint_nonnil p).
  destruct (Pos.to_uint p); [congruence|reflexivity..].
Qed.

Lemma all_digits_number (t : str) : all_digits t = true -> number_chars t = true.
Proof.
  unfold all_digits, number_chars. rewrite !forallb_forall. intros H c Hc.
  specialize (H c Hc). destruct (digit_value c); [reflexivity|discriminate].
Qed.

Lemma format_int_chars (z : Z) : number_chars (format_int z) = true.
Proof.
  destruct z as [|p|p].
  - reflexivity.
  - rewrite format_int_pos. apply all_digits_number, uint_chars_digits.
  - rewrite format_int_neg. simpl.
    apply (all_digits_number _ (uint_chars_digits (Pos.to_uint p))).
Qed.

Lemma format_int_nonempty (z : Z) : format_int z <> [].
Proof.
  destruct z as [|p|p].
  - discriminate.
  - rewrite format_int_pos. apply uint_chars_nonempty, Unsigned.to_uint_nonnil.
  - rewrite format_int_neg. discriminate.
Qed.

(** [int] reads back what [format] writes: formatting an integer and
    converting the text gives the integer again, for every integer. *)
Lemma int_of_format (z : Z) : py_int (format_int z) = Some z.
Proof.
  unfold py_int.
  rewrite (strip_no_space _ (number_chars_no_space _ (format_int_chars z))).
  destruct z as [|p|p].
  - reflexivity.
  - rewrite format_int_pos.
    pose proof (int_unsigned_uint _ (Unsigned.to_uint_nonnil p)) as Hu.
    rewrite DecimalPos.Unsigned.of_to in Hu.
    destruct (uint_chars (Pos.to_uint p)) as [|c t] eqn:Hc; [discriminate|].
    destruct (all_digits_in (c :: t) c) as (v & Hv);
      [rewrite <- Hc; apply uint_chars_digits | left; reflexivity |].
    rewrite (digit_not_char c "-" v Hv eq_refl), (digit_not_char c "+" v Hv eq_refl).
    exact Hu.
  - rewrite format_int_neg. cbn [Ascii.eqb Bool.eqb].
    rewrite (int_unsigned_uint _ (Unsigned.to_uint_nonnil p)).
    rewrite DecimalPos.Unsigned.of_to. reflexivity.
Qed.

(** ** [split] and [join] *)

Lemma split_nonempty (sep : ascii) (t : str) : split sep t <> [].
Proof.
  destruct t as [|c t]; simpl; [discriminate|].
  destruct (Ascii.eqb c sep); [discriminate|].
  destruct (split sep t); discriminate.
Qed.

(** Splitting at a separator splits both sides. *)
Lemma split_app_sep (sep : ascii) (x y : str) :
  split sep (x ++ sep :: y) = split sep x ++ split sep y.
Proof.
  induction x as [|c x IH]; simpl.
  - rewrite Ascii.eqb_refl. reflexivity.
  - destruct (Ascii.eqb c sep); [rewrite IH; reflexivity|].
    rewrite IH. pose proof (split_nonempty sep x).
    destruct (split sep x); [congruence|reflexivity].
Qed.

Lemma split_free (sep : ascii) (t : str) :
  free_of sep t = true -> split sep t = [t].
Proof.
  induction t as [|c t IH]; simpl; [reflexivity|].
  intros H. apply andb_prop in H. destruct H as [Hc Ht].
  apply negb_true_iff in Hc. rewrite Hc, (IH Ht). reflexivity.
Qed.

(** Splitting a joined list gives the fields of its items. *)
Lemma split_join (sep : ascii) (items : list str) :
  items <> [] ->
  split sep (join [sep] items) = concat (map (split sep) items).
Proof.
  induction items as [|x items IH]; [congruence|]. intros _.
  destruct items as [|y items].
  - simpl. rewrite app_nil_r. reflexivity.
  - change (join [sep] (x :: y :: items)) with (x ++ sep :: join [sep] (y :: items)).
    rewrite split_app_sep, IH by discriminate. reflexivity.
Qed.

(** ** AnsiTerminalParser: the SGR parameter loop *)

Lemma idle_start : idle sgr_start.
Proof. repeat split. Qed.

Lemma idle_alike (f g : sgr_flags) : idle f -> idle g -> alike f g.
Proof.
  intros (H1 & H2 & H3) (G1 & G2 & G3). unfold alike, idle.
  rewrite H1, H2, H3, G1, G2, G3. repeat split; auto.
Qed.

(** One parameter read under flags that are alike gives the same colours
    and flags that are alike again. *)
Lemma sgr_parameter_alike {K : Constants} (f g : sgr_flags)
  (a : colour_tuple) (x : str) :
  alike f g ->
  alike (fst (sgr_parameter (f, a) x)) (fst (sgr_parameter (g, a) x))
  /\ snd (sgr_parameter (f, a) x) = snd (sgr_parameter (g, a) x).
Proof.
  destruct f as [fs fi fr fk fa], g as [gs gi gr gk ga].
  unfold alike, idle. cbn [in_set_mode in_index_mode in_rgb_mode skip_size attribute_index].
  intros (-> & -> & -> & Hidx & Hskip).
  unfold sgr_parameter.
  cbn [in_set_mode in_index_mode in_rgb_mode skip_size attribute_index].
  destruct gs, gi, gr;
    destruct Hidx as [(? & ? & ?)|?]; try discriminate;
    destruct Hskip as [?|?]; try discriminate; subst;
    repeat match goal with
    | |- context [if ?c then _ else _] => destruct c
    end;
    cbn [fst snd in_set_mode in_index_mode in_rgb_mode skip_size attribute_index];
    repeat split; auto.
Qed.

Lemma fold_alike {K : Constants} (l : list str) :
  forall (f g : sgr_flags) (a : colour_tuple),
    alike f g ->
    snd (fold_left sgr_parameter l (f, a)) = snd (fold_left sgr_parameter l (g, a)).
Proof.
  induction l as [|x l IH]; intros f g a H; [reflexivity|]. cbn [fold_left].
  destruct (sgr_parameter_alike f g a x H) as [Hf Ha].
  destruct (sgr_parameter (f, a) x) as [f' a'].
  destruct (sgr_parameter (g, a) x) as [g' b']. simpl in *. subst b'.
  apply IH. exact Hf.
Qed.

(** X6. A parameter list acts as its parts in turn: when the loop is back
    at its top level after the parameters [x], the parameters [x;y] give
    the colours that [y] gives from the colours [x] gives. *)
Theorem sgr_parameters_compose {K : Constants} (a : colour_tuple) (x y : str) :
  idle (fst (fold_left sgr_parameter (split ";" x) (sgr_start, a))) ->
  sgr a (x ++ ";"%char :: y) = sgr (sgr a x) y.
Proof.
  intros H. unfold sgr. rewrite split_app_sep, fold_left_app.
  destruct (fold_left sgr_parameter (split ";" x) (sgr_start, a)) as [f a'].
  simpl in *. apply fold_alike. apply idle_alike; [exact H|apply idle_start].
Qed.

Lemma sgr_parameters_compose_witness :
  @sgr sample_constants unset (lit "38;5;9" ++ ";"%char :: lit "1;44") =
  @sgr sample_constants (@sgr sample_constants unset (lit "38;5;9")) (lit "1;44").
Proof.
  apply (@sgr_parameters_compose sample_constants unset (lit "38;5;9") (lit "1;44")).
  repeat split.
Defined.

(** Clears the way for reading parameters under idle flags [f]. *)
Ltac idle_flags f H :=
  destruct f as [? ? ? ? ?]; destruct H as (H1 & H2 & H3);
  cbn [in_set_mode in_index_mode in_rgb_mode] in H1, H2, H3; subst.

Lemma sgr_item_foreground {K : Constants} (f : sgr_flags) (a : colour_tuple)
  (v : str) (n : Z) :
  idle f -> py_int v = Some n ->
  fold_left sgr_parameter [lit "38"; lit "5"; v] (f, a) =
  (mkFlags false false false (skip_size f) 0, set_index a 0 (Some n)).
Proof.
  intros H Hv. idle_flags f H. cbn [fold_left].
  unfold sgr_parameter. simpl. rewrite Hv. reflexivity.
Qed.

Lemma sgr_item_background {K : Constants} (f : sgr_flags) (a : colour_tuple)
  (v : str) (n : Z) :
  idle f -> py_int v = Some n ->
  fold_left sgr_parameter [lit "48"; lit "5"; v] (f, a) =
  (mkFlags false false false (skip_size f) 2, set_index a 2 (Some n)).
Proof.
  intros H Hv. idle_flags f H. cbn [fold_left].
  unfold sgr_parameter. simpl. rewrite Hv. reflexivity.
Qed.

Lemma sgr_item_rgb {K : Constants} (f : sgr_flags) (a : colour_tuple)
  (r g b : str) :
  idle f ->
  fold_left sgr_parameter [lit "38"; lit "2"; r; g; b] (f, a) =
    (mkFlags false false false 0 0, a)
  /\ fold_left sgr_parameter [lit "48"; lit "2"; r; g; b] (f, a) =
     (mkFlags false false false 0 2, a).
Proof.
  intros H. idle_flags f H. cbn [fold_left]. split.
  - unfold sgr_parameter. simpl. reflexivity.
  - unfold sgr_parameter. simpl. reflexivity.
Qed.

Lemma split_indexed (code v : str) :
  free_of ";" code = true -> free_of ";" v = true ->
  split ";" (code ++ lit ";5;" ++ v) = [code; lit "5"; v].
Proof.
  intros Hc Hv.
  change (code ++ lit ";5;" ++ v) with (code ++ ";"%char :: lit "5" ++ ";"%char :: v).
  rewrite !split_app_sep, (split_free _ _ Hc), (split_free _ _ Hv). reflexivity.
Qed.

(** X7. Indexed colours: for every integer [n], the parameters 38;5;n set
    the foreground to [n] and the parameters 48;5;n set the background to
    [n], as written, without any check of range; the other two components
    stay as they were. *)
Theorem sgr_indexed_colour {K : Constants} (a : colour_tuple) (v : str) (n : Z) :
  free_of ";" v = true -> py_int v = Some n ->
  sgr a (lit "38;5;" ++ v) = (Some n, get_index a 1, get_index a 2)
  /\ sgr a (lit "48;5;" ++ v) = (get_index a 0, get_index a 1, Some n).
Proof.
  intros Hv Hn. unfold sgr. split.
  - change (lit "38;5;" ++ v) with (lit "38" ++ lit ";5;" ++ v).
    rewrite split_indexed by (reflexivity || exact Hv).
    rewrite (sgr_item_foreground _ _ _ _ idle_start Hn).
    destruct a as [[fg sty] bg]. reflexivity.
  - change (lit "48;5;" ++ v) with (lit "48" ++ lit ";5;" ++ v).
    rewrite split_indexed by (reflexivity || exact Hv).
    rewrite (sgr_item_background _ _ _ _ idle_start Hn).
    destruct a as [[fg sty] bg]. reflexivity.
Qed.

Lemma sgr_indexed_colour_witness :
  @sgr sample_constants (Some 4, Some 1, Some 6) (lit "38;5;" ++ lit "-300") =
    (Some (-300), Some 1, Some 6)
  /\ @sgr sample_constants (Some 4, Some 1, Some 6) (lit "48;5;" ++ lit "-300") =
     (Some 4, Some 1, Some (-300)).
Proof.
  apply (@sgr_indexed_colour sample_constants (Some 4, Some 1, Some 6)
           (lit "-300") (-300)); reflexivity.
Defined.

Lemma split_rgb (code r g b : str) :
  free_of ";" code = true -> free_of ";" r = true -> free_of ";" g = true ->
  free_of ";" b = true ->
  split ";" (code ++ lit ";2;" ++ r ++ ";"%char :: g ++ ";"%char :: b) =
  [code; lit "2"; r; g; b].
Proof.
  intros Hc Hr Hg Hb.
  change (code ++ lit ";2;" ++ r ++ ";"%char :: g ++ ";"%char :: b)
    with (code ++ ";"%char :: lit "2" ++ ";"%char :: r ++ ";"%char :: g ++ ";"%char :: b).
  rewrite !split_app_sep, (split_free _ _ Hc), (split_free _ _ Hr),
    (split_free _ _ Hg), (split_free _ _ Hb).
  reflexivity.
Qed.

(** X8. True colour is skipped: the parameters 38;2;r;g;b and 48;2;r;g;b
    leave the colours as they are, whatever the three fields hold, and the
    parameters that follow them are read as if the five were not there. *)
Theorem sgr_rgb_is_skipped {K : Constants} (a : colour_tuple) (r g b : str) :
  free_of ";" r = true -> free_of ";" g = true -> free_of ";" b = true ->
  sgr a (lit "38;2;" ++ r ++ ";"%char :: g ++ ";"%char :: b) = a
  /\ sgr a (lit "48;2;" ++ r ++ ";"%char :: g ++ ";"%char :: b) = a
  /\ (forall y,
        sgr a ((lit "38;2;" ++ r ++ ";"%char :: g ++ ";"%char :: b)
               ++ ";"%char :: y) = sgr a y)
  /\ (forall y,
        sgr a ((lit "48;2;" ++ r ++ ";"%char :: g ++ ";"%char :: b)
               ++ ";"%char :: y) = sgr a y).
Proof.
  intros Hr Hg Hb.
  assert (H38 : fold_left sgr_parameter
                  (split ";" (lit "38;2;" ++ r ++ ";"%char :: g ++ ";"%char :: b))
                  (sgr_start, a) = (mkFlags false false false 0 0, a)).
  { change (lit "38;2;" ++ r ++ ";"%char :: g ++ ";"%char :: b)
      with (lit "38" ++ lit ";2;" ++ r ++ ";"%char :: g ++ ";"%char :: b).
    rewrite split_rgb by (reflexivity || assumption).
    apply (sgr_item_rgb _ _ _ _ _ idle_start). }
  assert (H48 : fold_left sgr_parameter
                  (split ";" (lit "48;2;" ++ r ++ ";"%char :: g ++ ";"%char :: b))
                  (sgr_start, a) = (mkFlags false false false 0 2, a)).
  { change (lit "48;2;" ++ r ++ ";"%char :: g ++ ";"%char :: b)
      with (lit "48" ++ lit ";2;" ++ r ++ ";"%char :: g ++ ";"%char :: b).
    rewrite split_rgb by (reflexivity || assumption).
    apply (sgr_item_rgb _ _ _ _ _ idle_start). }
  split; [|split; [|split]].
  - unfold sgr. rewrite H38. reflexivity.
  - unfold sgr. rewrite H48. reflexivity.
  - intros y. unfold sgr. rewrite split_app_sep, fold_left_app, H38.
    apply fold_alike. apply idle_alike; repeat split.
  - intros y. unfold sgr. rewrite split_app_sep, fold_left_app, H48.
    apply fold_alike. apply idle_alike; repeat split.
Qed.

Lemma sgr_rgb_is_skipped_witness :
  @sgr sample_constants (Some 4, Some 1, Some 6)
    ((lit "38;2;" ++ lit "255" ++ ";"%char :: lit "31" ++ ";"%char :: lit "0")
     ++ ";"%char :: lit "7") =
  @sgr sample_constants (Some 4, Some 1, Some 6) (lit "7").
Proof.
  destruct (@sgr_rgb_is_skipped sample_constants (Some 4, Some 1, Some 6)
              (lit "255") (lit "31") (lit "0") eq_refl eq_refl eq_refl)
    as (_ & _ & H & _).
  apply H.
Defined.

(** X9. A field that is empty or not an integer is read as 0: the loop
    treats it as it treats the parameter 0, and a control sequence whose
    whole parameter field is such a text resets the colours to
    (COLOUR_WHITE, A_NORMAL, COLOUR_BLACK). *)
Theorem sgr_malformed_field_is_zero {K : Constants} (v : str) :
  py_int v = None ->
  (forall (f : sgr_flags) (a : colour_tuple),
     sgr_parameter (f, a) v = sgr_parameter (f, a) (lit "0"))
  /\ (free_of ";" v = true ->
      forall a, sgr a v = (Some COLOUR_WHITE, Some A_NORMAL, Some COLOUR_BLACK)).
Proof.
  intros Hv. split.
  - intros f a. unfold sgr_parameter. rewrite Hv. reflexivity.
  - intros Hfree a. unfold sgr. rewrite (split_free _ _ Hfree). simpl.
    unfold sgr_parameter. rewrite Hv. reflexivity.
Qed.

Lemma sgr_malformed_field_is_zero_witness :
  @sgr sample_constants (Some 4, Some 1, Some 6) (lit "?") = (Some 7, Some 2, Some 0).
Proof.
  destruct (@sgr_malformed_field_is_zero sample_constants (lit "?") eq_refl)
    as [_ H].
  apply H. reflexivity.
Defined.

(** ** AnsiTerminalParser: what [normalize] writes, [reset] reads *)

Lemma option_Z_eqb_eq (x y : option Z) : option_Z_eqb x y = true <-> x = y.
Proof.
  destruct x as [x|], y as [y|]; simpl; split; intros H;
    try discriminate; try reflexivity.
  - apply Z.eqb_eq in H. congruence.
  - inversion H. apply Z.eqb_refl.
Qed.

Lemma colour_tuple_eqb_eq (a b : colour_tuple) : colour_tuple_eqb a b = true <-> a = b.
Proof.
  destruct a as [[f s] g], b as [[f' s'] g']. unfold colour_tuple_eqb. simpl.
  rewrite !andb_true_iff, !option_Z_eqb_eq. split.
  - intros [[-> ->] ->]. reflexivity.
  - intros H. inversion H. auto.
Qed.

Lemma sgr_item_style {K : Constants} (f : sgr_flags) (a : colour_tuple) (v : Z) :
  idle f -> style_code v ->
  fold_left sgr_parameter
    (concat (map (split ";")
       (if option_Z_eqb (Some v) (Some A_BOLD) then [lit "1"]
        else if option_Z_eqb (Some v) (Some A_NORMAL) then [lit "2"]
        else if option_Z_eqb (Some v) (Some A_REVERSE) then [lit "7"]
        else [])))
    (f, a) = (f, set_index a 1 (Some v)).
Proof.
  intros H Hv. idle_flags f H. simpl option_Z_eqb.
  destruct (Z.eqb_spec v A_BOLD) as [->|Hb]; [reflexivity|].
  destruct (Z.eqb_spec v A_NORMAL) as [->|Hn]; [reflexivity|].
  destruct (Z.eqb_spec v A_REVERSE) as [->|Hr]; [reflexivity|].
  destruct Hv as [?|[?|?]]; congruence.
Qed.

Lemma format_field (v : Z) : free_of ";" (format_int v) = true.
Proof. apply number_chars_free, format_int_chars. Qed.

Lemma fold_left_app_eq {A B : Type} (F : A -> B -> A) (l1 l2 : list B)
  (acc acc1 r : A) :
  fold_left F l1 acc = acc1 -> fold_left F l2 acc1 = r ->
  fold_left F (l1 ++ l2) acc = r.
Proof. intros <- <-. apply fold_left_app. Qed.

(** The fields [normalize] writes for one component bring that component
    to its new value and leave the loop at its top level. *)
Lemma decode_foreground {K : Constants} (f : sgr_flags) (f0 f1 s b : option Z) :
  idle f -> (f1 = f0 \/ exists v, f1 = Some v) ->
  exists g,
    fold_left sgr_parameter
      (concat (map (split ";")
         (if negb (option_Z_eqb f0 f1)
          then [lit "38;5;" ++ format_value f1] else [])))
      (f, (f0, s, b)) = (g, (f1, s, b)) /\ idle g.
Proof.
  intros Hf Hfg. destruct (option_Z_eqb f0 f1) eqn:E.
  - apply option_Z_eqb_eq in E. subst. simpl. eauto.
  - destruct Hfg as [->|[v ->]];
      [rewrite (proj2 (option_Z_eqb_eq f0 f0) eq_refl) in E; discriminate|].
    cbn [negb map concat format_value]. rewrite app_nil_r.
    change (lit "38;5;" ++ format_int v) with (lit "38" ++ lit ";5;" ++ format_int v).
    rewrite split_indexed by (reflexivity || apply format_field).
    rewrite (sgr_item_foreground _ _ _ _ Hf (int_of_format v)).
    eexists. split; [reflexivity|]. repeat split.
Qed.

Lemma decode_style {K : Constants} (f : sgr_flags) (s0 s1 fg b : option Z) :
  idle f -> (s1 = s0 \/ exists v, s1 = Some v /\ style_code v) ->
  exists g,
    fold_left sgr_parameter
      (concat (map (split ";")
         (if negb (option_Z_eqb s0 s1)
          then
            if option_Z_eqb s1 (Some A_BOLD) then [lit "1"]
            else if option_Z_eqb s1 (Some A_NORMAL) then [lit "2"]
            else if option_Z_eqb s1 (Some A_REVERSE) then [lit "7"]
            else []
          else [])))
      (f, (fg, s0, b)) = (g, (fg, s1, b)) /\ idle g.
Proof.
  intros Hf Hst. destruct (option_Z_eqb s0 s1) eqn:E.
  - apply option_Z_eqb_eq in E. subst. simpl. eauto.
  - destruct Hst as [->|[v [-> Hv]]];
      [rewrite (proj2 (option_Z_eqb_eq s0 s0) eq_refl) in E; discriminate|].
    cbn [negb]. exists f.
    split; [exact (sgr_item_style f (fg, s0, b) v Hf Hv)|exact Hf].
Qed.

Lemma decode_background {K : Constants} (f : sgr_flags) (b0 b1 fg s : option Z) :
  idle f -> (b1 = b0 \/ exists v, b1 = Some v) ->
  exists g,
    fold_left sgr_parameter
      (concat (map (split ";")
         (if negb (option_Z_eqb b0 b1)
          then [lit "48;5;" ++ format_value b1] else [])))
      (f, (fg, s, b0)) = (g, (fg, s, b1)) /\ idle g.
Proof.
  intros Hf Hbg. destruct (option_Z_eqb b0 b1) eqn:E.
  - apply option_Z_eqb_eq in E. subst. simpl. eauto.
  - destruct Hbg as [->|[v ->]];
      [rewrite (proj2 (option_Z_eqb_eq b0 b0) eq_refl) in E; discriminate|].
    cbn [negb map concat format_value]. rewrite app_nil_r.
    change (lit "48;5;" ++ format_int v) with (lit "48" ++ lit ";5;" ++ format_int v).
    rewrite split_indexed by (reflexivity || apply format_field).
    rewrite (sgr_item_background _ _ _ _ Hf (int_of_format v)).
    eexists. split; [reflexivity|]. repeat split.
Qed.

Lemma decode_components {K : Constants} (f : sgr_flags) (a0 a1 : colour_tuple) :
  idle f -> encodable a0 a1 ->
  exists f',
    fold_left sgr_parameter
      (concat (map (split ";") (sgr_format a0 a1))) (f, a0) = (f', a1)
    /\ idle f'.
Proof.
  destruct a0 as [[f0 s0] b0], a1 as [[f1 s1] b1].
  unfold encodable, sgr_format. cbn [get_index].
  intros Hf (Hfg & Hst & Hbg).
  destruct (decode_foreground f f0 f1 s0 b0 Hf Hfg) as (g1 & H1 & Hg1).
  destruct (decode_style g1 s0 s1 f1 b0 Hg1 Hst) as (g2 & H2 & Hg2).
  destruct (decode_background g2 b0 b1 f1 s1 Hg2 Hbg) as (g3 & H3 & Hg3).
  exists g3. split; [|exact Hg3].
  rewrite !map_app, !concat_app.
  apply (fold_left_app_eq _ _ _ _ _ _ H1).
  apply (fold_left_app_eq _ _ _ _ _ _ H2). exact H3.
Qed.

(** A change [normalize] can write down is written with at least one
    field. *)
Lemma sgr_format_nonempty {K : Constants} (a0 a1 : colour_tuple) :
  encodable a0 a1 -> colour_tuple_eqb a0 a1 = false -> sgr_format a0 a1 <> [].
Proof.
  destruct a0 as [[f0 s0] b0], a1 as [[f1 s1] b1].
  unfold encodable, sgr_format, colour_tuple_eqb. cbn [get_index].
  intros (Hfg & Hst & Hbg) Hne.
  destruct (option_Z_eqb f0 f1) eqn:E1; [|discriminate].
  destruct (option_Z_eqb s0 s1) eqn:E2.
  - destruct (option_Z_eqb b0 b1) eqn:E3; [discriminate|]. discriminate.
  - destruct Hst as [->|[v [-> Hv]]];
      [rewrite (proj2 (option_Z_eqb_eq s0 s0) eq_refl) in E2; discriminate|].
    simpl. destruct (Z.eqb_spec v A_BOLD); [discriminate|].
    destruct (Z.eqb_spec v A_NORMAL); [discriminate|].
    destruct (Z.eqb_spec v A_REVERSE); [discriminate|].
    destruct Hv as [?|[?|?]]; congruence.
Qed.

(** X10. Decoding what [normalize] encodes: when the colours change from
    [a0] to [a1] and every component that changes becomes a number (for the
    style, one of bold, normal and reverse), the parameter field that
    [normalize] writes for the change, read by the SGR branch of [reset]
    from the colours [a0], gives exactly [a1]. *)
Theorem sgr_decodes_format {K : Constants} (a0 a1 : colour_tuple) :
  encodable a0 a1 -> colour_tuple_eqb a0 a1 = false ->
  sgr a0 (join [";"%char] (sgr_format a0 a1)) = a1.
Proof.
  intros He Hne. unfold sgr.
  rewrite split_join by (apply sgr_format_nonempty; assumption).
  destruct (decode_components sgr_start a0 a1 idle_start He) as (f' & -> & _).
  reflexivity.
Qed.

Lemma sgr_decodes_format_witness :
  @sgr sample_constants (Some 4, None, Some 6)
    (join [";"%char] (@sgr_format sample_constants (Some 4, None, Some 6)
                        (Some 4, Some 3, Some (-2)))) =
  (Some 4, Some 3, Some (-2)).
Proof.
  apply (@sgr_decodes_format sample_constants (Some 4, None, Some 6)
           (Some 4, Some 3, Some (-2))).
  - split; [left; reflexivity|]. split.
    + right. exists 3. split; [reflexivity|]. right. right. reflexivity.
    + right. exists (-2). reflexivity.
  - reflexivity.
Defined.

(** ** AnsiTerminalParser: the loop, continued from any state *)

(** Fuel beyond the length of the text is never used. *)
Lemma while_enough {K : Constants} (fuel1 : nat) :
  forall (fuel2 : nat) (st : state),
    (length (text st) <= fuel1)%nat -> (length (text st) <= fuel2)%nat ->
    while fuel1 nonempty body st = while fuel2 nonempty body st.
Proof.
  induction fuel1 as [|fuel1 IH]; intros fuel2 st H1 H2.
  - destruct (text st) as [|c t] eqn:Ht; [|simpl in H1; lia].
    assert (Hc : nonempty st = false) by (unfold nonempty; rewrite Ht; reflexivity).
    destruct fuel2; simpl; rewrite Hc; reflexivity.
  - destruct (nonempty st) eqn:Hc.
    + destruct fuel2 as [|fuel2].
      { unfold nonempty in Hc. destruct (text st); [discriminate|simpl in H2; lia]. }
      simpl. rewrite Hc. destruct (body st) as [st'| |] eqn:Hb; try reflexivity.
      simpl. pose proof (body_shortens st st' Hc Hb). apply IH; lia.
    + destruct fuel2; simpl; rewrite Hc; reflexivity.
Qed.

Lemma run_from_step {K : Constants} (st st' : state) :
  text st <> [] -> body st = Ok st' -> run_from st = run_from st'.
Proof.
  intros Ht Hb. unfold run_from.
  assert (Hc : nonempty st = true).
  { unfold nonempty. destruct (text st) as [|c t]; [congruence|].
    rewrite len_cons. apply Z.gtb_lt. pose proof (len_nonneg t). lia. }
  pose proof (body_shortens st st' Hc Hb) as Hlt.
  destruct (length (text st)) as [|n] eqn:Hn; [lia|].
  simpl. rewrite Hc, Hb. simpl. apply while_enough; lia.
Qed.

Lemma run_from_done {K : Constants} (st : state) : text st = [] -> run_from st = Ok st.
Proof.
  intros H. unfold run_from. rewrite H. simpl. unfold nonempty. rewrite H.
  reflexivity.
Qed.

Lemma run_is_run_from {K : Constants} (raw : str) (colours : option colour_tuple) :
  run raw colours = run_from (initial_state raw colours).
Proof. reflexivity. Qed.

(** ** AnsiTerminalParser: the string [normalize] builds *)

Lemma normalize_element_spec {K : Constants} (nv : str) (attrs : colour_tuple)
  (last : Z) (done : list element) (e : element) :
  normalize_element (nv, attrs, last, done) e =
  (nv ++ chunk attrs e, colours_of e, len (nv ++ chunk attrs e),
   done ++ [(glyph e, colours_of e, last)]).
Proof.
  unfold normalize_element, chunk. fold (sgr_format attrs (colours_of e)).
  destruct (colour_tuple_eqb attrs (colours_of e)) eqn:E; cbn [negb].
  - apply colour_tuple_eqb_eq in E. rewrite <- E.
    destruct (glyph e); simpl; rewrite ?app_nil_r; reflexivity.
  - destruct (glyph e); simpl; rewrite ?app_nil_r;
      repeat (rewrite <- app_assoc; simpl); reflexivity.
Qed.

Lemma normalize_fold {K : Constants} (l : list element) :
  forall (nv : str) (attrs : colour_tuple) (last : Z) (done : list element),
    exists last' done',
      fold_left normalize_element l (nv, attrs, last, done) =
      (nv ++ chunks attrs l, fold_left (fun _ e => colours_of e) l attrs,
       last', done ++ done')
      /\ pairs done' = pairs l.
Proof.
  induction l as [|e l IH]; intros nv attrs last done.
  - exists last, []. simpl. rewrite !app_nil_r. auto.
  - cbn [fold_left]. rewrite normalize_element_spec.
    destruct (IH (nv ++ chunk attrs e) (colours_of e)
                (len (nv ++ chunk attrs e)) (done ++ [(glyph e, colours_of e, last)]))
      as (last' & done' & Heq & Hp).
    exists last', ((glyph e, colours_of e, last) :: done'). split.
    + etransitivity; [exact Heq|].
      cbn [chunks]. rewrite <- !app_assoc. reflexivity.
    + unfold pairs in *. simpl. rewrite Hp. reflexivity.
Qed.

(** The string [normalize] returns: what it writes for the entries, then
    the cursor-back sequence when the cursor is positive. *)
Lemma normalize_string {K : Constants} (p : Parser element) :
  fst (normalize p) =
  chunks unset (_result p)
  ++ (if _cursor p >? 0 then csi (format_int (_cursor p)) "D" else []).
Proof.
  unfold normalize.
  destruct (normalize_fold (_result p) [] unset 0 []) as (last' & done' & H & _).
  replace (fold_left normalize_element (_result p) ([], unset, 0, []))
    with (chunks unset (_result p),
          fold_left (fun _ e => colours_of e) (_result p) unset, last', done')
    by (symmetry; exact H).
  simpl. destruct (_cursor p >? 0); simpl; [|rewrite app_nil_r; reflexivity].
  unfold csi. reflexivity.
Qed.

(** ** AnsiTerminalParser: reading back the string of [normalize] *)

Lemma body_sgr {K : Constants} (st : state) (p rest : str) :
  parameter_field p -> text st = csi p "m" ++ rest ->
  body st =
  Ok (mkState (result st) (sgr (attributes st) p) (offset st + (3 + len p))
        (last_offset st) (cursor st) rest).
Proof.
  intros Hp H. run_csi H Hp (eq_refl : is_final "m" = true). finish_csi H.
Qed.

Lemma body_cursor_back {K : Constants} (st : state) (p rest : str) (n : Z) :
  parameter_field p -> count_parameter p = Ok n -> text st = csi p "D" ++ rest ->
  body st =
  Ok (mkState (result st) (attributes st) (offset st + (3 + len p))
        (last_offset st) (cursor st - n) rest).
Proof.
  intros Hp Hn H. run_csi H Hp (eq_refl : is_final "D" = true).
  rewrite Hn. finish_csi H.
Qed.

Lemma parameter_field_app (x y : str) :
  parameter_field x -> parameter_field y -> parameter_field (x ++ y).
Proof.
  unfold parameter_field. intros Hx Hy. rewrite forallb_app, Hx, Hy. reflexivity.
Qed.

Lemma parameter_field_join (items : list str) :
  Forall parameter_field items -> parameter_field (join [";"%char] items).
Proof.
  induction 1 as [|x items Hx Hitems IH]; [reflexivity|].
  destruct items as [|y items]; [exact Hx|].
  change (join [";"%char] (x :: y :: items))
    with (x ++ [";"%char] ++ join [";"%char] (y :: items)).
  apply parameter_field_app; [exact Hx|].
  apply parameter_field_app; [reflexivity|exact IH].
Qed.

Lemma format_int_field (v : Z) : parameter_field (format_int v).
Proof. apply number_chars_field, format_int_chars. Qed.

(** The parameter field [normalize] writes for a change it can write down
    holds no final character. *)
Lemma sgr_format_field {K : Constants} (a0 a1 : colour_tuple) :
  encodable a0 a1 -> parameter_field (join [";"%char] (sgr_format a0 a1)).
Proof.
  destruct a0 as [[f0 s0] b0], a1 as [[f1 s1] b1].
  unfold encodable, sgr_format. cbn [get_index]. intros (Hfg & Hst & Hbg).
  apply parameter_field_join.
  apply Forall_app; split; [|apply Forall_app; split].
  - destruct (option_Z_eqb f0 f1) eqn:E; [constructor|].
    destruct Hfg as [->|[v ->]];
      [rewrite (proj2 (option_Z_eqb_eq f0 f0) eq_refl) in E; discriminate|].
    constructor; [|constructor].
    apply parameter_field_app; [reflexivity|apply format_int_field].
  - repeat match goal with
    | |- context [if ?c then _ else _] => destruct c
    end; repeat constructor.
  - destruct (option_Z_eqb b0 b1) eqn:E; [constructor|].
    destruct Hbg as [->|[v ->]];
      [rewrite (proj2 (option_Z_eqb_eq b0 b0) eq_refl) in E; discriminate|].
    constructor; [|constructor].
    apply parameter_field_app; [reflexivity|apply format_int_field].
Qed.

Lemma sgr_decode {K : Constants} (a0 a1 : colour_tuple) :
  encodable a0 a1 -> colour_tuple_eqb a0 a1 = false ->
  sgr a0 (join [";"%char] (sgr_format a0 a1)) = a1.
Proof.
  intros He Hne. unfold sgr.
  rewrite split_join by (apply sgr_format_nonempty; assumption).
  destruct (decode_components sgr_start a0 a1 idle_start He) as (f' & H & _).
  unfold str in *. rewrite H. reflexivity.
Qed.

(** Reading what [normalize] wrote for one cell, with the cursor at the end
    of the buffer: the colours become those of the cell, and a cell with a
    glyph is appended. *)
Lemma read_chunk {K : Constants} (st : state) (e : element) (tail : str) :
  cell e -> encodable (attributes st) (colours_of e) ->
  cursor st = len (result st) ->
  text st = chunk (attributes st) e ++ tail ->
  exists st' r',
    run_from st = run_from st'
    /\ text st' = tail
    /\ attributes st' = colours_of e
    /\ result st' = result st ++ r'
    /\ cursor st' = len (result st')
    /\ pairs r' = glyph_pairs [e]
    /\ forallb has_glyph r' = true.
Proof.
  intros Hcell Henc Hcur Htext. unfold chunk in Htext.
  (* the colours *)
  assert (H1 : exists st1,
             run_from st = run_from st1
             /\ text st1 = match glyph e with Some g => g | None => [] end ++ tail
             /\ attributes st1 = colours_of e
             /\ result st1 = result st
             /\ cursor st1 = cursor st).
  { destruct (colour_tuple_eqb (attributes st) (colours_of e)) eqn:E;
      cbn [negb] in Htext.
    - apply colour_tuple_eqb_eq in E. exists st. auto.
    - pose proof (sgr_format_field _ _ Henc) as Hfield.
      assert (Ht : text st =
                   csi (join [";"%char] (sgr_format (attributes st) (colours_of e))) "m"
                   ++ match glyph e with Some g => g | None => [] end ++ tail).
      { rewrite Htext. unfold csi. simpl. rewrite <- !app_assoc. reflexivity. }
      eexists. split.
      + apply run_from_step; [rewrite Ht; discriminate|].
        apply (body_sgr st _ _ Hfield Ht).
      + simpl. rewrite (sgr_decode _ _ Henc E). auto. }
  destruct H1 as (st1 & Hrun & Ht1 & Ha1 & Hr1 & Hc1).
  (* the glyph *)
  destruct Hcell as [Hnone|(c & Hsome & Hc)].
  - rewrite Hnone in Ht1. exists st1, []. rewrite app_nil_r.
    unfold glyph_pairs, has_glyph. simpl. rewrite Hnone. simpl.
    repeat split; auto. congruence.
  - rewrite Hsome in Ht1. simpl in Ht1.
    eexists. exists [(Some [c], colours_of e, last_offset st1)]. split.
    + rewrite Hrun. apply run_from_step; [rewrite Ht1; discriminate|].
      apply (body_printable_at_end st1 c tail Ht1 Hc).
      rewrite Hr1, Hc1, Hcur. lia.
    + simpl. rewrite Ha1, Hr1, Hc1, Hcur, len_app, len_cons.
      change (len (@nil element)) with 0.
      unfold glyph_pairs, has_glyph, pairs. simpl. rewrite Hsome. simpl.
      repeat split; auto. rewrite Hsome. reflexivity.
Qed.

Lemma glyph_pairs_app (l1 l2 : list element) :
  glyph_pairs (l1 ++ l2) = glyph_pairs l1 ++ glyph_pairs l2.
Proof. unfold glyph_pairs, pairs. rewrite filter_app, map_app. reflexivity. Qed.

Lemma glyph_pairs_all (l : list element) :
  forallb has_glyph l = true -> glyph_pairs l = pairs l.
Proof.
  intros H. unfold glyph_pairs. f_equal.
  induction l as [|e l IH]; [reflexivity|]. simpl in *.
  apply andb_prop in H. destruct H as [He Hl]. rewrite He, (IH Hl). reflexivity.
Qed.

Lemma read_chunks {K : Constants} (l : list element) :
  forall (st : state) (tail : str),
    Forall cell l -> encodable_chain (attributes st) l ->
    cursor st = len (result st) ->
    text st = chunks (attributes st) l ++ tail ->
    exists st' r',
      run_from st = run_from st'
      /\ text st' = tail
      /\ result st' = result st ++ r'
      /\ cursor st' = len (result st')
      /\ pairs r' = glyph_pairs l
      /\ forallb has_glyph r' = true.
Proof.
  induction l as [|e l IH]; intros st tail Hcells Hchain Hcur Htext.
  - exists st, []. rewrite app_nil_r. repeat split; auto.
  - inversion Hcells as [|? ? Hcell Hrest]; subst. destruct Hchain as [Henc Hchain].
    cbn [chunks] in Htext. rewrite <- app_assoc in Htext.
    destruct (read_chunk st e _ Hcell Henc Hcur Htext)
      as (st1 & r1 & Hrun1 & Ht1 & Ha1 & Hr1 & Hc1 & Hp1 & Hg1).
    rewrite <- Ha1 in Hchain, Ht1.
    destruct (IH st1 tail Hrest Hchain Hc1 Ht1)
      as (st' & r2 & Hrun2 & Ht2 & Hr2 & Hc2 & Hp2 & Hg2).
    exists st', (r1 ++ r2). repeat split; auto.
    + congruence.
    + rewrite Hr2, Hr1, app_assoc. reflexivity.
    + change (e :: l) with ([e] ++ l). rewrite glyph_pairs_app, <- Hp1, <- Hp2.
      unfold pairs. apply map_app.
    + rewrite forallb_app, Hg1, Hg2. reflexivity.
Qed.

Lemma count_of_format (n : Z) : count_parameter (format_int n) = Ok n.
Proof.
  unfold count_parameter, int_or_raise.
  pose proof (format_int_nonempty n). rewrite int_of_format.
  destruct (format_int n); [congruence|reflexivity].
Qed.

(** The round trip for a parser whose entries are cells and whose colour
    changes can all be written down. *)
Lemma round_trip_of_cells {K : Constants} (p : Parser element) :
  Forall cell (_result p) ->
  encodable_chain unset (_result p) ->
  exists q,
    reset (fst (normalize p)) None = Ok q
    /\ glyph_pairs (parse q) = glyph_pairs (parse p)
    /\ cursor_property q = Z.max (cursor_property p) 0.
Proof.
  intros Hcells Hchain. rewrite normalize_string.
  set (tail := if _cursor p >? 0 then csi (format_int (_cursor p)) "D" else []).
  set (s := chunks unset (_result p) ++ tail).
  destruct (read_chunks (_result p) (initial_state s None) tail Hcells Hchain
              eq_refl eq_refl)
    as (st' & r' & Hrun & Ht & Hr & Hc & Hp & Hg).
  simpl in Hr.
  assert (Hend : exists st'',
             run_from st' = Ok st'' /\ result st'' = r'
             /\ cursor st'' = len r' - Z.max (_cursor p) 0).
  { unfold tail in Ht. destruct (Z.gtb_spec (_cursor p) 0) as [Hpos|Hneg].
    - eexists. split.
      + rewrite (run_from_step st' _ ltac:(rewrite Ht; discriminate)
                   (body_cursor_back st' _ [] _ (format_int_field _)
                      (count_of_format _) ltac:(rewrite Ht, app_nil_r; reflexivity))).
        apply run_from_done. reflexivity.
      + simpl. rewrite Hr, Hc, Hr. split; [reflexivity|]. lia.
    - exists st'. split; [apply run_from_done; exact Ht|].
      rewrite Hr, Hc, Hr. split; [reflexivity|]. lia. }
  destruct Hend as (st'' & Hrun' & Hr' & Hc').
  exists (finish s None st''). split; [|split].
  - unfold reset.
    assert (Hs : run s None = Ok st'')
      by (rewrite run_is_run_from; etransitivity; [exact Hrun|exact Hrun']).
    change (bind (run s None) (fun st => Ok (finish s None st)) =
            Ok (finish s None st'')).
    rewrite Hs. reflexivity.
  - unfold parse, finish. cbn [_result]. rewrite Hr'.
    destruct (last_offset st'' =? offset st'').
    + rewrite (glyph_pairs_all _ Hg). exact Hp.
    + rewrite glyph_pairs_app, (glyph_pairs_all _ Hg). unfold glyph_pairs at 2.
      simpl. rewrite app_nil_r. exact Hp.
  - unfold cursor_property, finish. cbn [_cursor]. rewrite Hr', Hc'. lia.
Qed.

(** ** AnsiTerminalParser: what the buffer holds *)

Lemma Forall_firstn {A : Type} (P : A -> Prop) (n : nat) (l : list A) :
  Forall P l -> Forall P (firstn n l).
Proof.
  intros H. rewrite <- (firstn_skipn n l) in H. apply Forall_app in H. tauto.
Qed.

Lemma Forall_skipn {A : Type} (P : A -> Prop) (n : nat) (l : list A) :
  Forall P l -> Forall P (skipn n l).
Proof.
  intros H. rewrite <- (firstn_skipn n l) in H. apply Forall_app in H. tauto.
Qed.

Lemma Forall_repeat {A : Type} (P : A -> Prop) (n : nat) (x : A) :
  P x -> Forall P (repeat x n).
Proof.
  intros H. apply Forall_forall. intros y Hy.
  apply repeat_spec in Hy. subst. exact H.
Qed.

(** Solves goals on the entries of a buffer rebuilt from slices. *)
Ltac forall_slices :=
  unfold slice_assign, slice_to, slice_from;
  repeat first
    [ assumption
    | apply Forall_nil
    | apply Forall_app; split
    | apply Forall_cons
    | apply Forall_firstn
    | apply Forall_skipn
    | apply Forall_repeat ].

(** One iteration keeps a property of the entries, as long as the entries
    it can write (a printable character or a blank, in the current
    colours) have it. *)
Lemma body_entries {K : Constants} (P : element -> Prop) (st st' : state) :
  body st = Ok st' ->
  Forall P (result st) ->
  (forall c o, 31 < ord c -> P (Some [c], attributes st, o)) ->
  Forall P (result st').
Proof.
  intros Hb Hall Hnew.
  assert (Hblank : P (blank st)) by (apply Hnew; reflexivity).
  revert Hb. unfold body. destruct (text st) as [|c t] eqn:Ht.
  { intros H. inversion H; subst. exact Hall. }
  destruct (Z.gtb_spec (ord c) 31) as [Hc|Hc].
  { simpl. intros H. inversion H; subst; clear H. simpl.
    specialize (Hnew c (last_offset st) Hc). forall_slices. }
  destruct (ord c =? 8).
  { simpl. intros H. inversion H; subst. exact Hall. }
  destruct (ord c =? 13).
  { simpl. intros H. inversion H; subst. exact Hall. }
  destruct (ord c =? 27).
  2:{ simpl. intros H. inversion H; subst. exact Hall. }
  unfold _handle_escape, count_parameter, int_or_raise.
  destruct (_colour_sequence_match (text st)) as [m|].
  2:{ simpl. intros H. inversion H; subst. exact Hall. }
  repeat match goal with
  | |- context [if ?b then _ else _] => destruct b
  | |- context [match ?x with _ => _ end] => destruct x
  end; simpl; intros H; inversion H; subst; clear H; simpl; forall_slices.
Qed.

Lemma set_index_full {K : Constants} (a : colour_tuple) (i : nat) (v : Z) :
  full a -> i <> 1%nat -> full (set_index a i (Some v)).
Proof.
  intros (f & s & b & -> & Hs) Hi.
  destruct i as [|[|i]]; [|congruence|]; simpl; repeat eexists; eauto.
Qed.

Lemma set_style_full {K : Constants} (a : colour_tuple) (v : Z) :
  full a -> style_code v -> full (set_index a 1 (Some v)).
Proof. intros (f & s & b & -> & Hs) Hv. simpl. repeat eexists; eauto. Qed.

(** The parameter loop keeps the colours fully set. *)
Lemma sgr_parameter_full {K : Constants} (f : sgr_flags) (a : colour_tuple) (x : str) :
  full a -> attribute_index f <> 1%nat ->
  full (snd (sgr_parameter (f, a) x))
  /\ attribute_index (fst (sgr_parameter (f, a) x)) <> 1%nat.
Proof.
  intros Ha Hi. unfold sgr_parameter.
  repeat match goal with
  | |- context [if ?b then _ else _] => destruct b
  end; cbn [fst snd attribute_index]; split;
    try assumption; try discriminate;
    try (apply set_index_full; [assumption|congruence || discriminate]);
    try (apply set_style_full; [assumption|unfold style_code; tauto]).
  all: repeat eexists; unfold style_code; tauto.
Qed.

Lemma sgr_full {K : Constants} (a : colour_tuple) (p : str) : full a -> full (sgr a p).
Proof.
  intros Ha. unfold sgr.
  assert (H : forall l f b, full b -> attribute_index f <> 1%nat ->
              full (snd (fold_left sgr_parameter l (f, b)))).
  { induction l as [|x l IH]; intros f b Hb Hf; [exact Hb|]. cbn [fold_left].
    destruct (sgr_parameter_full f b x Hb Hf) as [H1 H2].
    destruct (sgr_parameter (f, b) x) as [f' b']. apply IH; assumption. }
  apply H; [exact Ha|discriminate].
Qed.

Lemma body_full {K : Constants} (st st' : state) :
  body st = Ok st' -> full (attributes st) -> full (attributes st').
Proof.
  intros Hb Hfull. revert Hb. unfold body. destruct (text st) as [|c t] eqn:Ht.
  { intros H. inversion H; subst. exact Hfull. }
  destruct (ord c >? 31).
  { simpl. intros H. inversion H; subst. exact Hfull. }
  destruct (ord c =? 8).
  { simpl. intros H. inversion H; subst. exact Hfull. }
  destruct (ord c =? 13).
  { simpl. intros H. inversion H; subst. exact Hfull. }
  destruct (ord c =? 27).
  2:{ simpl. intros H. inversion H; subst. exact Hfull. }
  unfold _handle_escape, count_parameter, int_or_raise.
  destruct (_colour_sequence_match (text st)) as [m|].
  2:{ simpl. intros H. inversion H; subst. exact Hfull. }
  destruct (Ascii.eqb (group3 m) "m").
  { simpl. intros H. inversion H; subst. simpl. apply sgr_full, Hfull. }
  repeat match goal with
  | |- context [if ?b then _ else _] => destruct b
  | |- context [match ?x with _ => _ end] => destruct x
  end; simpl; intros H; inversion H; subst; clear H; exact Hfull.
Qed.

Lemma run_entries {K : Constants} (P : element -> Prop) (Q : colour_tuple -> Prop)
  (raw : str) (colours : option colour_tuple) (st : state) :
  (forall s s', body s = Ok s' -> Q (attributes s) -> Q (attributes s')) ->
  (forall a c o, Q a -> 31 < ord c -> P (Some [c], a, o)) ->
  Q (attributes (initial_state raw colours)) ->
  run raw colours = Ok st ->
  Q (attributes st) /\ Forall P (result st).
Proof.
  intros HQ HP H0. unfold run.
  apply (while_invariant nonempty body
           (fun s => Q (attributes s) /\ Forall P (result s))).
  - intros s s' _ [Hq Hp] Hb. split; [exact (HQ s s' Hb Hq)|].
    apply (body_entries P s s' Hb Hp). intros c o Hc. apply HP; assumption.
  - split; [exact H0|constructor].
Qed.

Lemma reset_cells {K : Constants}
  (raw : str) (colours : option colour_tuple) (p : Parser element) :
  reset raw colours = Ok p ->
  exists buffer : list element,
    Forall visible buffer
    /\ (_result p = buffer \/ exists a o, _result p = buffer ++ [(None, a, o)]).
Proof.
  unfold reset. destruct (run raw colours) as [st| |] eqn:Hrun; simpl; try discriminate.
  intros H. inversion H; subst; clear H. exists (result st).
  destruct (run_entries visible (fun _ => True) raw colours st
              (fun _ _ _ _ => I)
              (fun a c o _ Hc => ex_intro _ c (conj eq_refl Hc)) I Hrun)
    as [_ Hall].
  split; [exact Hall|].
  unfold finish. simpl. destruct (last_offset st =? offset st); eauto.
Qed.

(** X11. The buffer holds cells: when [reset] completes, every entry it
    stored shows exactly one printable character, except that the last
    entry may be the attribute-only one; control characters and control
    sequences never get into a glyph.  So the glyphs of the result are its
    entries in order, without the attribute-only one. *)
Theorem reset_stores_cells {K : Constants}
  (raw : str) (colours : option colour_tuple) (p : Parser element) :
  reset raw colours = Ok p ->
  exists buffer : list element,
    Forall visible buffer
    /\ (_result p = buffer \/ exists a o, _result p = buffer ++ [(None, a, o)])
    /\ glyph_pairs (parse p) = pairs buffer.
Proof.
  intros Hreset.
  destruct (reset_cells raw colours p Hreset) as (buffer & Hall & Hshape).
  exists buffer. split; [exact Hall|]. split; [exact Hshape|].
  assert (Hg : forallb has_glyph buffer = true).
  { apply forallb_forall. intros e He.
    destruct (proj1 (Forall_forall _ _) Hall e He) as (c & Hc & _).
    unfold has_glyph. rewrite Hc. reflexivity. }
  unfold parse. destruct Hshape as [->|(a & o & ->)].
  - apply glyph_pairs_all, Hg.
  - rewrite glyph_pairs_app, (glyph_pairs_all _ Hg).
    unfold glyph_pairs at 1. simpl. apply app_nil_r.
Qed.

Lemma reset_stores_cells_witness :
  exists buffer : list element,
    Forall visible buffer
    /\ (_result (mkParser (lit "ab" ++ [BS]) None 1
                   [(Some ["a"%char], unset, 0); (Some ["b"%char], unset, 1);
                    (None, unset, 2)]) = buffer
        \/ exists a o,
             _result (mkParser (lit "ab" ++ [BS]) None 1
                        [(Some ["a"%char], unset, 0); (Some ["b"%char], unset, 1);
                         (None, unset, 2)]) = buffer ++ [(None, a, o)])
    /\ glyph_pairs
         (parse (mkParser (lit "ab" ++ [BS]) None 1
                   [(Some ["a"%char], unset, 0); (Some ["b"%char], unset, 1);
                    (None, unset, 2)])) = pairs buffer.
Proof.
  apply (@reset_stores_cells sample_constants (lit "ab" ++ [BS]) None).
  reflexivity.
Defined.

Lemma visible_cell (e : element) : visible e -> cell e.
Proof. intros H. right. exact H. Qed.

Lemma chain_of_full {K : Constants} (l : list element) :
  Forall (fun e => full (colours_of e)) l ->
  forall a, encodable_chain a l.
Proof.
  induction 1 as [|e l He Hl IH]; intros a; [exact I|]. split; [|apply IH].
  destruct He as (f & s & b & -> & Hs). unfold encodable. simpl.
  repeat split; right; eauto.
Qed.

(** X12. The round trip that does hold.  Let [reset] complete on a text.
    If every change of colours along its result is one [normalize] can
    write down (each component stays or becomes a number, the style one of
    bold, normal and reverse), or if the parse started from colours that
    are fully set with such a style, then parsing the normalized string
    again, with no colours, completes, gives the same glyphs with the same
    colours in the same order (attribute-only entries apart), and reports
    the same cursor, or 0 where the first parse reported a negative one. *)
Theorem normalize_round_trip {K : Constants} (raw : str)
  (colours : option colour_tuple) (p : Parser element) :
  reset raw colours = Ok p ->
  encodable_chain unset (_result p) \/ (exists a, colours = Some a /\ full a) ->
  exists q,
    reset (fst (normalize p)) None = Ok q
    /\ glyph_pairs (parse q) = glyph_pairs (parse p)
    /\ cursor_property q = Z.max (cursor_property p) 0.
Proof.
  intros Hreset Hcond.
  assert (Hchain : encodable_chain unset (_result p)).
  { destruct Hcond as [H|(a & -> & Hfull)]; [exact H|].
    apply chain_of_full. revert Hreset. unfold reset.
    destruct (run raw (Some a)) as [st| |] eqn:Hrun; simpl; try discriminate.
    intros H. inversion H; subst; clear H.
    destruct (run_entries (fun e => full (colours_of e)) full raw (Some a) st
                body_full (fun a' c o Ha' _ => Ha') Hfull Hrun) as [Hq Hall].
    unfold finish. simpl. destruct (last_offset st =? offset st); [exact Hall|].
    apply Forall_app. split; [exact Hall|]. constructor; [exact Hq|constructor]. }
  apply round_trip_of_cells; [|exact Hchain].
  destruct (reset_cells raw colours p Hreset) as (buffer & Hall & [->|(a & o & ->)]).
  - eapply Forall_impl; [|exact Hall]. exact visible_cell.
  - apply Forall_app. split.
    + eapply Forall_impl; [|exact Hall]. exact visible_cell.
    + constructor; [left; reflexivity|constructor].
Qed.

Lemma normalize_round_trip_witness :
  exists p : Parser element,
    @reset sample_constants (lit "ab" ++ CR :: ESC :: lit "[31mX")
      (Some (Some 7, Some 2, Some 0)) = Ok p
    /\ exists q,
         @reset sample_constants (fst (@normalize sample_constants p)) None = Ok q
         /\ glyph_pairs (parse q) = glyph_pairs (parse p)
         /\ cursor_property q = Z.max (cursor_property p) 0.
Proof.
  eexists. split; [vm_compute; reflexivity|].
  apply (@normalize_round_trip sample_constants
           (lit "ab" ++ CR :: ESC :: lit "[31mX") (Some (Some 7, Some 2, Some 0))).
  - vm_compute. reflexivity.
  - right. exists (Some 7, Some 2, Some 0). split; [reflexivity|].
    exists 7, 2, 0. split; [reflexivity|]. right. left. reflexivity.
Defined.

(** ** AnsiTerminalParser: [normalize] on its own output *)

Lemma normalize_fold_pairs {K : Constants} (l1 : list element) :
  forall (l2 : list element) (acc : str * colour_tuple * Z * list element),
    pairs l1 = pairs l2 ->
    fold_left normalize_element l1 acc = fold_left normalize_element l2 acc.
Proof.
  induction l1 as [|e1 l1 IH]; intros [|e2 l2] acc H; try discriminate;
    [reflexivity|].
  unfold pairs in H. simpl in H. inversion H as [[Hg Hc Hrest]].
  destruct acc as [[[nv attrs] last] done]. cbn [fold_left].
  rewrite !normalize_element_spec. unfold chunk. rewrite Hg, Hc.
  apply IH. exact Hrest.
Qed.

(** X13. [normalize] is idempotent: it leaves the glyphs, the colours and
    the cursor of the parser as they are, stores the string it returns as
    the raw text, and a second call returns the same string and leaves the
    parser, with its rewritten offsets, unchanged. *)
Theorem normalize_idempotent {K : Constants} (p : Parser element) :
  normalize (snd (normalize p)) = normalize p
  /\ pairs (parse (snd (normalize p))) = pairs (parse p)
  /\ _raw_text (snd (normalize p)) = fst (normalize p)
  /\ cursor_property (snd (normalize p)) = cursor_property p.
Proof.
  destruct (normalize_fold (_result p) [] unset 0 []) as (last' & done' & H & Hp).
  set (s := if _cursor p >? 0
            then chunks unset (_result p)
                 ++ ESC :: "["%char :: format_int (_cursor p) ++ ["D"%char]
            else chunks unset (_result p)).
  assert (Hn : forall l, pairs l = pairs (_result p) ->
             normalize (mkParser (_raw_text p) (_attributes p) (_cursor p) l) =
             (s, mkParser s (_attributes p) (_cursor p) done')).
  { intros l Hl. unfold normalize. cbn [_result _cursor _attributes].
    rewrite (normalize_fold_pairs l (_result p) _ Hl).
    replace (fold_left normalize_element (_result p) ([], unset, 0, []))
      with (chunks unset (_result p),
            fold_left (fun _ e => colours_of e) (_result p) unset, last', done')
      by (symmetry; exact H).
    unfold s. destruct (_cursor p >? 0); reflexivity. }
  assert (Hp0 : normalize p = (s, mkParser s (_attributes p) (_cursor p) done')).
  { destruct p as [raw a c l]. apply (Hn l). reflexivity. }
  rewrite Hp0. cbn [fst snd]. split; [|repeat split; exact Hp].
  unfold normalize. cbn [_result _cursor _attributes].
  rewrite (normalize_fold_pairs done' (_result p) _ Hp).
  replace (fold_left normalize_element (_result p) ([], unset, 0, []))
    with (chunks unset (_result p),
          fold_left (fun _ e => colours_of e) (_result p) unset, last', done')
    by (symmetry; exact H).
  unfold s. destruct (_cursor p >? 0); reflexivity.
Qed.

(** ** AnsiTerminalParser: when [reset] returns *)

(** A loop whose body cannot raise under an invariant does not raise. *)
Lemma while_no_raise {St : Type} (cond : St -> bool) (body : St -> outcome St)
  (I : St -> Prop) :
  (forall s s', cond s = true -> I s -> body s = Ok s' -> I s') ->
  (forall s e, I s -> body s <> Raise e) ->
  forall fuel s e, I s -> while fuel cond body s <> Raise e.
Proof.
  intros Hstep Hsafe. induction fuel as [|fuel IH]; intros s e Hs; simpl;
    destruct (cond s) eqn:Hc; try discriminate.
  destruct (body s) as [s'| |] eqn:Hb; simpl; try discriminate.
  - apply IH. exact (Hstep s s' Hc Hs Hb).
  - exfalso. exact (Hsafe s e0 Hs Hb).
Qed.

Lemma In_skipn {A : Type} (x : A) (n : nat) (l : list A) :
  In x (skipn n l) -> In x l.
Proof.
  intros H. rewrite <- (firstn_skipn n l). apply in_or_app. right. exact H.
Qed.

(** X14. A text without the escape character is always parsed: [reset]
    returns, whatever other control characters the text holds and whatever
    the colours are. *)
Theorem reset_total_without_escape {K : Constants}
  (raw : str) (colours : option colour_tuple) :
  ~ In ESC raw -> exists p, reset raw colours = Ok p.
Proof.
  intros Hesc. unfold reset.
  pose proof (run_terminates raw colours) as Hterm.
  assert (Hsafe : forall e, run raw colours <> Raise e).
  { intros e0. unfold run.
    apply (while_no_raise nonempty body (fun st => ~ In ESC (text st))).
    - intros s s' Hc Hs Hb Hin.
      assert (Ht : text s <> []).
      { unfold nonempty in Hc. destruct (text s); [discriminate|congruence]. }
      destruct (body_consumes s s' Ht Hb) as (n & _ & Hs' & _).
      rewrite Hs' in Hin. exact (Hs (In_skipn _ _ _ Hin)).
    - intros s e Hs Hb. apply body_raises_iff in Hb.
      destruct Hb as (_ & m & Hm & _).
      destruct (match_head _ _ Hm) as (rest & Ht).
      apply Hs. rewrite Ht. left. reflexivity.
    - exact Hesc. }
  destruct (run raw colours) as [st|e|]; [|exfalso; exact (Hsafe e eq_refl)|congruence].
  eexists. reflexivity.
Qed.

Lemma reset_total_without_escape_witness :
  exists p, @reset sample_constants (lit "a" ++ [BS; CR; "007"%char] ++ lit "[1;5C")
              None = Ok p.
Proof.
  apply (@reset_total_without_escape sample_constants).
  simpl. intros [H|[H|[H|[H|[H|[H|[H|[H|[H|[]]]]]]]]]]; discriminate.
Defined.

(** ** AnsiTerminalParser: writing with a negative cursor *)

Lemma slice_assign_negative {A : Type} (l : list A) (c : Z) (x : A) :
  c < 0 ->
  slice_assign l c (c + 1) [x] =
  if c <? - len l then x :: l
  else if c =? -1 then
    firstn (Z.to_nat (len l - 1)) l ++ x :: skipn (Z.to_nat (len l - 1)) l
  else firstn (Z.to_nat (len l + c)) l ++ x :: skipn (S (Z.to_nat (len l + c))) l.
Proof.
  intros Hc. pose proof (len_nonneg l) as Hl. unfold slice_assign.
  assert (Hlo : adjust_index (len l) c = Z.max (c + len l) 0).
  { unfold adjust_index. destruct (Z.ltb_spec c 0); [reflexivity|lia]. }
  assert (Hhi : adjust_index (len l) (c + 1) =
                if c =? -1 then 0 else Z.max (c + 1 + len l) 0).
  { unfold adjust_index. destruct (Z.eqb_spec c (-1)) as [->|Hne].
    - simpl. apply Z.min_l. lia.
    - destruct (Z.ltb_spec (c + 1) 0); [reflexivity|lia]. }
  rewrite Hlo, Hhi. clear Hlo Hhi.
  destruct (Z.ltb_spec c (- len l)).
  - replace (Z.max (c + len l) 0) with 0 by lia.
    replace (Z.max (if c =? -1 then 0 else Z.max (c + 1 + len l) 0) 0) with 0
      by (destruct (c =? -1); lia).
    reflexivity.
  - destruct (Z.eqb_spec c (-1)) as [->|Hne].
    + replace (Z.max (-1 + len l) 0) with (len l - 1) by lia.
      replace (Z.max 0 (len l - 1)) with (len l - 1) by lia. reflexivity.
    + replace (Z.max (c + len l) 0) with (len l + c) by lia.
      replace (Z.max (Z.max (c + 1 + len l) 0) (len l + c)) with (len l + c + 1)
        by lia.
      replace (Z.to_nat (len l + c + 1)) with (S (Z.to_nat (len l + c))) by lia.
      reflexivity.
Qed.

(** X15. Writing with a negative cursor: a printable character met with
    the cursor at [-k] is not refused.  From -2 down to minus the length
    of the buffer it replaces the entry [k] places from the end; at -1 it
    is inserted before the last entry, so the buffer grows; below minus the
    length it is inserted at the front.  The cursor moves up by one
    each time. *)
Theorem write_at_negative_cursor {K : Constants}
  (st : state) (c : ascii) (rest : str) :
  text st = c :: rest -> 31 < ord c -> cursor st < 0 ->
  exists r' : list element,
    body st =
      Ok (mkState r' (attributes st) (offset st + 1) (offset st + 1)
            (cursor st + 1) rest)
    /\ (cursor st < - len (result st) ->
        r' = (Some [c], attributes st, last_offset st) :: result st)
    /\ (cursor st = -1 -> 0 < len (result st) ->
        r' = firstn (Z.to_nat (len (result st) - 1)) (result st)
             ++ (Some [c], attributes st, last_offset st)
                :: skipn (Z.to_nat (len (result st) - 1)) (result st)
        /\ len r' = len (result st) + 1)
    /\ (- len (result st) <= cursor st <= -2 ->
        r' = firstn (Z.to_nat (len (result st) + cursor st)) (result st)
             ++ (Some [c], attributes st, last_offset st)
                :: skipn (S (Z.to_nat (len (result st) + cursor st))) (result st)
        /\ len r' = len (result st)).
Proof.
  intros H Hc Hneg. eexists. split.
  - unfold body. rewrite H.
    replace (ord c >? 31) with true by (symmetry; apply Z.gtb_lt; exact Hc).
    simpl. unfold set_text, set_offset, set_last_offset, set_cursor, set_result.
    simpl. rewrite slice_from_nonneg by lia. rewrite H. reflexivity.
  - rewrite (slice_assign_negative _ _ _ Hneg). pose proof (len_nonneg (result st)).
    split; [|split].
    + intros Hlow. destruct (Z.ltb_spec (cursor st) (- len (result st))); [reflexivity|lia].
    + intros H1 Hlen. destruct (Z.ltb_spec (cursor st) (- len (result st))); [lia|].
      destruct (Z.eqb_spec (cursor st) (-1)); [|lia]. split; [reflexivity|].
      unfold len in *. rewrite length_app, length_firstn, length_cons, length_skipn. lia.
    + intros Hmid. destruct (Z.ltb_spec (cursor st) (- len (result st))); [lia|].
      destruct (Z.eqb_spec (cursor st) (-1)); [lia|]. split; [reflexivity|].
      unfold len in *. rewrite length_app, length_firstn, length_cons, length_skipn. lia.
Qed.

Lemma write_at_negative_cursor_witness :
  exists r' : list element,
    @body sample_constants
      (mkState (plain_entries unset 0 (lit "ab")) unset 6 2 (-1) (lit "Zq")) =
      Ok (mkState r' unset 7 7 0 (lit "q"))
    /\ r' = [(Some (lit "a"), unset, 0); (Some (lit "Z"), unset, 2);
             (Some (lit "b"), unset, 1)].
Proof.
  destruct (@write_at_negative_cursor sample_constants
              (mkState (plain_entries unset 0 (lit "ab")) unset 6 2 (-1) (lit "Zq"))
              "Z"%char (lit "q") eq_refl eq_refl eq_refl)
    as (r' & Hb & _ & Hins & _).
  exists r'. split; [exact Hb|].
  destruct (Hins eq_refl eq_refl) as [-> _]. reflexivity.
Defined.

(** ** ControlCodeParser: the readable entries *)

Lemma ord_range (c : ascii) : 0 <= ord c < 256.
Proof.
  unfold ord. pose proof (N_ascii_bounded c). lia.
Qed.

Lemma ord_chr (z : Z) : 0 <= z < 256 -> ord (chr z) = z.
Proof.
  intros Hz. unfold ord, chr. rewrite N_ascii_embedding by lia. lia.
Qed.

Lemma nth_error_enumerate {A : Type} (l : list A) :
  forall (k : Z) (i : nat),
    nth_error (ControlCodeParser.enumerate_from k l) i =
    option_map (fun x => (k + Z.of_nat i, x)) (nth_error l i).
Proof.
  induction l as [|x l IH]; intros k i; destruct i as [|i]; simpl; try reflexivity.
  - rewrite Z.add_0_r. reflexivity.
  - rewrite IH. destruct (nth_error l i); simpl; [|reflexivity].
    do 2 f_equal. lia.
Qed.

(** X16. Control codes made readable: [ControlCodeParser.reset] always
    returns, with one entry per character of the text, in order, the
    offset of each being the index of its character and all sharing one
    colour placeholder.  A character below 32 is shown as a caret and the
    character 64 places up, any other as itself, so no glyph holds a control
    character; [normalize] gives the text back. *)
Theorem control_codes_made_readable (raw : str) (colours : option colour_tuple) :
  exists (p : Parser ControlCodeParser.entry) (shared : ControlCodeParser.placeholder),
    ControlCodeParser.reset raw colours = Ok p
    /\ ControlCodeParser.normalize p = raw
    /\ length (_result p) = length raw
    /\ forall (i : nat) (c : ascii),
         nth_error raw i = Some c ->
         exists g : str,
           nth_error (_result p) i = Some (g, shared, Z.of_nat i)
           /\ printable g
           /\ (31 < ord c -> g = [c])
           /\ (ord c <= 31 -> g = ["^"%char; chr (64 + ord c)]).
Proof.
  eexists. eexists. split; [reflexivity|]. split; [reflexivity|]. split.
  - simpl. rewrite length_map.
    generalize 0. induction raw as [|c raw IH]; intros k; simpl; [reflexivity|].
    rewrite IH. reflexivity.
  - intros i c Hi. cbn [_result]. rewrite nth_error_map, nth_error_enumerate, Hi.
    cbn [option_map ControlCodeParser.readable]. pose proof (ord_range c) as Hr.
    destruct (Z.ltb_spec (ord c) 32) as [Hlt|Hge].
    + eexists. split; [reflexivity|]. split; [|split].
      * repeat constructor. change (ord "@") with 64.
        rewrite ord_chr by lia. lia.
      * intros H. lia.
      * intros _. reflexivity.
    + eexists. split; [reflexivity|]. split; [|split].
      * repeat constructor. lia.
      * intros _. reflexivity.
      * intros H. lia.
Qed.

Lemma control_codes_made_readable_witness :
  exists (p : Parser ControlCodeParser.entry) (shared : ControlCodeParser.placeholder),
    ControlCodeParser.reset ("007"%char :: lit "b") None = Ok p
    /\ nth_error (_result p) 0 = Some (lit "^G", shared, 0).
Proof.
  destruct (control_codes_made_readable ("007"%char :: lit "b") None)
    as (p & shared & Hreset & _ & _ & Hnth).
  exists p, shared. split; [exact Hreset|].
  destruct (Hnth 0%nat "007"%char eq_refl) as (g & Hg & _ & _ & Hctl).
  rewrite Hg, (Hctl ltac:(vm_compute; discriminate)). reflexivity.
Defined.

(** ** AsciimaticsParser: the shape of the result *)

Section AsciimaticsParserFurther.
Import AsciimaticsParser.
Context {K : Constants}.

Lemma no_dollar_no_match (t : str) :
  ~ In "$"%char t -> _colour_sequence_match t = None.
Proof.
  intros H. unfold _colour_sequence_match.
  destruct t as [|c0 [|c1 t]]; try reflexivity.
  destruct (Ascii.eqb_spec c0 "$") as [->|]; [|reflexivity].
  exfalso. apply H. left. reflexivity.
Qed.

Lemma run_literal (t : str) :
  ~ In "$"%char t ->
  forall (fuel : nat) (r : list element) (a : colour_tuple) (k : Z),
    (length t <= fuel)%nat ->
    while fuel nonempty body (mkState r a k k t) =
    Ok (mkState (r ++ plain_entries a k t) a (k + len t) (k + len t) []).
Proof.
  induction t as [|c t IH]; intros Hd fuel r a k Hfuel.
  - change (len (@nil ascii)) with 0.
    destruct fuel; simpl; rewrite app_nil_r, Z.add_0_r; reflexivity.
  - destruct fuel as [|fuel]; [simpl in Hfuel; lia|].
    cbn [while]. unfold nonempty at 1. cbn [text].
    replace (len (c :: t) >? 0) with true
      by (symmetry; apply Z.gtb_lt; rewrite len_cons;
          pose proof (len_nonneg t); lia).
    rewrite (body_literal (mkState r a k k (c :: t)) c t eq_refl
               (no_dollar_no_match _ Hd)).
    cbn [bind result attributes offset last_offset].
    rewrite IH by (try (intros Hin; apply Hd; right; exact Hin);
                   simpl in Hfuel; lia).
    rewrite <- app_assoc, len_cons. simpl. do 2 f_equal; lia.
Qed.

Lemma len_plain_entries (a : colour_tuple) (t : str) (i : Z) :
  len (plain_entries a i t) = len t.
Proof.
  revert i. induction t as [|c t IH]; intros i; [reflexivity|].
  cbn [plain_entries]. rewrite !len_cons, IH. reflexivity.
Qed.

(** X17. Text without a dollar sign holds no colour sequence: [reset] stores
    one entry per character, each with the colours the parser was given (or
    the unset tuple) and its index as offset, adds no attribute-only entry,
    and leaves the cursor at the length of the text. *)
Theorem markup_free_text (raw : str) (colours : option colour_tuple) :
  ~ In "$"%char raw ->
  reset raw colours =
  Ok (mkParser raw colours (len raw)
        (plain_entries (match colours with Some c => c | None => unset end)
           0 raw)).
Proof.
  intros Hd. unfold reset, run, initial_state.
  rewrite (run_literal raw Hd (length raw) [] _ 0 (Nat.le_refl _)).
  cbn [bind]. unfold finish. cbn [result attributes offset last_offset app].
  rewrite Z.eqb_refl, len_plain_entries. reflexivity.
Qed.

Lemma while_unfold {St : Type} (cond : St -> bool) (body : St -> outcome St)
  (fuel : nat) (s : St) :
  while (S fuel) cond body s =
  if cond s then bind (body s) (while fuel cond body) else Ok s.
Proof. reflexivity. Qed.

Lemma span_prefix (p : ascii -> bool) (a : str) (c : ascii) (b : str) :
  forallb p a = true -> p c = false -> span p (a ++ c :: b) = (a, c :: b).
Proof.
  intros Ha Hc. induction a as [|x a IH]; simpl.
  - rewrite Hc. reflexivity.
  - simpl in Ha. apply andb_prop in Ha. destruct Ha as [Hx Ha].
    rewrite Hx, (IH Ha). reflexivity.
Qed.

Lemma match_single (d t : str) :
  numeric d ->
  _colour_sequence_match ("$"%char :: "{"%char :: d ++ "}"%char :: t) =
  Some (mkMatch d (token_c d) t).
Proof.
  intros [Hne Hd]. unfold _colour_sequence_match. cbn [Ascii.eqb Bool.eqb andb].
  rewrite (span_prefix is_digit d "}" t Hd eq_refl).
  destruct d; [congruence|]. reflexivity.
Qed.

(** X18. A colour sequence with one number, followed by text without a
    dollar sign: every character of the text carries the foreground read
    from the number (for any run of digits, leading zeros included), the
    attribute 0 and no background.  The first character keeps offset 0, the
    start of the sequence before it, and the others their positions in the
    raw text; the cursor is the number of characters.  With no text after
    the sequence, the result is one attribute-only entry at offset 0. *)
Theorem colour_token_then_text (d t : str) (colours : option colour_tuple) :
  numeric d -> ~ In "$"%char t ->
  exists n : Z,
    py_int d = Some n
    /\ reset ("$"%char :: "{"%char :: d ++ "}"%char :: t) colours =
       Ok (mkParser ("$"%char :: "{"%char :: d ++ "}"%char :: t) colours (len t)
             (match t with
              | [] => [(None, (Some n, Some 0, None), 0)]
              | c :: t' =>
                  (Some [c], (Some n, Some 0, None), 0)
                  :: plain_entries (Some n, Some 0, None) (len d + 4) t'
              end)).
Proof.
  intros Hnum Hd.
  destruct (int_or_raise_numeric d Hnum) as (n & Hn).
  exists n. split.
  { unfold int_or_raise in Hn. destruct (py_int d); inversion Hn; reflexivity. }
  pose proof (len_nonneg d) as Hlen.
  unfold reset, run, initial_state.
  set (raw := "$"%char :: "{"%char :: d ++ "}"%char :: t).
  assert (Hfuel : length raw = S (S (S (length d + length t)))).
  { unfold raw. simpl. rewrite length_app. simpl. lia. }
  rewrite Hfuel, while_unfold. unfold nonempty at 1. cbn [text].
  replace (len raw >? 0) with true
    by (symmetry; apply Z.gtb_lt; unfold len; rewrite Hfuel; lia).
  unfold body at 1. cbn [text]. unfold raw at 1.
  rewrite (match_single d t Hnum).
  unfold token_attributes. cbn [groups]. rewrite Hn.
  cbn [bind result attributes offset last_offset group1 group8].
  destruct t as [|c t'].
  - rewrite while_unfold. unfold nonempty at 1. cbn [text].
    change (len (@nil ascii) >? 0) with false. cbv iota. cbn [bind].
    unfold finish. cbn [text result attributes offset last_offset].
    replace (0 =? 0 + (3 + len d)) with false
      by (symmetry; apply Z.eqb_neq; lia).
    reflexivity.
  - rewrite while_unfold. unfold nonempty at 1. cbn [text].
    replace (len (c :: t') >? 0) with true
      by (symmetry; apply Z.gtb_lt; rewrite len_cons;
          pose proof (len_nonneg t'); lia).
    assert (Hc : ~ In "$"%char (c :: t')) by exact Hd.
    rewrite (body_literal
               (mkState [] (Some n, Some 0, None) (0 + (3 + len d)) 0 (c :: t'))
               c t' eq_refl (no_dollar_no_match _ Hc)).
    cbn [bind result attributes offset last_offset app].
    replace (0 + (3 + len d) + 1) with (len d + 4) by lia.
    rewrite run_literal
      by (try (intros Hin; apply Hd; right; exact Hin); simpl; lia).
    cbn [bind]. unfold finish. cbn [result attributes offset last_offset app].
    rewrite Z.eqb_refl, len_cons, len_plain_entries, len_cons.
    reflexivity.
Qed.

Lemma run_characters (raw : str) (colours : option colour_tuple) (st : state) :
  run raw colours = Ok st ->
  Forall (fun e => exists c, glyph e = Some [c]) (result st)
  /\ len (result st) + len (text st) <= len raw.
Proof.
  unfold run.
  apply (while_invariant nonempty body
           (fun s => Forall (fun e => exists c, glyph e = Some [c]) (result s)
                     /\ len (result s) + len (text s) <= len raw)).
  - intros s s' Hc [Hall Hlen] Hb.
    destruct (_colour_sequence_match (text s)) as [m|] eqn:Hm.
    + destruct (body_token _ _ _ Hm Hb) as (Hr & _ & _ & Ht).
      rewrite Hr. split; [exact Hall|].
      rewrite Ht, len_app in Hlen. pose proof (len_nonneg (token_text m)). lia.
    + unfold nonempty in Hc.
      destruct (text s) as [|c rest] eqn:Ht; [discriminate|].
      rewrite <- Ht in Hm. rewrite (body_literal s c rest Ht Hm) in Hb.
      inversion Hb; subst s'; clear Hb. cbn [result text]. split.
      * apply Forall_app. split; [exact Hall|].
        constructor; [|constructor]. exists c. reflexivity.
      * rewrite len_app, len_cons. rewrite len_cons in Hlen.
        unfold len in *. cbn [length]. lia.
  - simpl. split; [constructor|]. unfold len. cbn [length]. lia.
Qed.

(** X19. The shape of every result of [reset]: a run of single-character
    entries, no more of them than the raw text has characters, which the
    cursor counts, and after them at most one attribute-only entry.  That
    entry is there only when the raw text ends in colour sequences, and its
    offset is where the last run of them starts. *)
Theorem markup_result_shape (raw : str) (colours : option colour_tuple)
  (p : Parser element) :
  reset raw colours = Ok p ->
  exists chars : list element,
    Forall (fun e => exists c, glyph e = Some [c]) chars
    /\ _cursor p = len chars
    /\ len chars <= len raw
    /\ (_result p = chars
        \/ exists (a : colour_tuple) (pre seg : str),
             _result p = chars ++ [(None, a, len pre)]
             /\ raw = pre ++ seg /\ seg <> [] /\ markup_run seg).
Proof.
  unfold reset.
  destruct (run raw colours) as [st| |] eqn:Hrun; simpl; try discriminate.
  intros H. inversion H; subst p; clear H. unfold finish. cbn [_cursor _result].
  destruct (run_characters _ _ _ Hrun) as [Hall Hlen].
  destruct (run_invariant _ _ _ Hrun)
    as (pre & seg & Hraw & Hpre & Hoff & Hseg & _).
  assert (Hend : text st = []).
  { unfold run in Hrun. apply while_exit in Hrun. unfold nonempty in Hrun.
    destruct (text st) as [|c r]; [reflexivity|].
    rewrite len_cons in Hrun. pose proof (len_nonneg r).
    destruct (Z.gtb_spec (len r + 1) 0); [discriminate|lia]. }
  exists (result st). split; [exact Hall|]. split; [reflexivity|].
  split; [pose proof (len_nonneg (text st)); lia|].
  destruct (Z.eqb_spec (last_offset st) (offset st)) as [He|He]; [left; reflexivity|].
  right. exists (attributes st), pre, seg.
  rewrite Hpre. split; [reflexivity|]. split.
  - rewrite Hraw, Hend, app_nil_r. reflexivity.
  - split; [|exact Hseg]. intros ->. apply He.
    change (len (@nil ascii)) with 0 in Hoff. lia.
Qed.

End AsciimaticsParserFurther.

Lemma markup_free_text_witness :
  ~ In "$"%char (lit "a{1}")
  /\ @AsciimaticsParser.reset sample_constants (lit "a{1}") (Some (Some 2, Some 1, None)) =
     Ok (mkParser (lit "a{1}") (Some (Some 2, Some 1, None)) 4
           (plain_entries (Some 2, Some 1, None) 0 (lit "a{1}"))).
Proof.
  assert (H : ~ In "$"%char (lit "a{1}")).
  { simpl. intros [H|[H|[H|[H|[]]]]]; discriminate. }
  split; [exact H|].
  exact (@markup_free_text sample_constants (lit "a{1}")
           (Some (Some 2, Some 1, None)) H).
Defined.

Lemma colour_token_then_text_witness :
  @AsciimaticsParser.reset sample_constants (lit "${07}ab") None =
  Ok (mkParser (lit "${07}ab") None 2
        [(Some (lit "a"), (Some 7, Some 0, None), 0);
         (Some (lit "b"), (Some 7, Some 0, None), 6)]).
Proof.
  assert (Hnum : numeric (lit "07")) by (split; [discriminate|reflexivity]).
  assert (Hd : ~ In "$"%char (lit "ab")).
  { simpl. intros [H|[H|[]]]; discriminate. }
  destruct (@colour_token_then_text sample_constants (lit "07") (lit "ab") None
              Hnum Hd) as (n & Hn & Hr).
  vm_compute in Hn. inversion Hn; subst n. exact Hr.
Defined.

Lemma markup_result_shape_witness :
  exists chars : list element,
    Forall (fun e => exists c, glyph e = Some [c]) chars
    /\ 1 = len chars
    /\ len chars <= len (lit "a${2}")
    /\ ([(Some (lit "a"), unset, 0); (None, (Some 2, Some 0, None), 1)] = chars
        \/ exists (a : colour_tuple) (pre seg : str),
             [(Some (lit "a"), unset, 0); (None, (Some 2, Some 0, None), 1)] =
             chars ++ [(None, a, len pre)]
             /\ lit "a${2}" = pre ++ seg /\ seg <> [] /\ markup_run seg).
Proof.
  exact (@markup_result_shape sample_constants (lit "a${2}") None
           (mkParser (lit "a${2}") None 1
              [(Some (lit "a"), unset, 0); (None, (Some 2, Some 0, None), 1)])
           eq_refl).
Defined.
